(** * Shallow embedding of the algo-trading-bot core

    Sources embedded:
    - [trading_strategy.py]: [TradingStrategy.generate_signal] (the scoring
      part, over the two last indicator rows), [calculate_rsi],
      [calculate_macd], [calculate_bollinger_bands], [calculate_ema],
      [calculate_volume_signal];
    - [backtest.py]: [Backtester.run_backtest], [calculate_statistics]
      (with its maximum drawdown);
    - [alpaca_trader.py]: [AlpacaTrader.place_order] (up to the sink);
    - [config.py]: [Config.SYMBOLS];
    - [main.py]: [TradingBot.process_symbol], [execute_buy],
      [execute_sell], [check_exit_conditions].

    Prices and indicator values are float64 cells in the source.  They are
    modelled as exact rationals; a cell that may hold NaN is an [option Q]
    whose [None] is NaN, and every comparison involving NaN is false, as in
    Python. *)

From Stdlib Require Import QArith Qpower Qabs Qround ZArith List String Ascii Bool Lia.
From Stdlib Require Import Reals Qreals Lra Lqa.
Import ListNotations.

Open Scope Q_scope.

(** Python's [a < b] on floats. *)
Definition Qlt_bool (x y : Q) : bool := negb (Qle_bool y x).



(** ** Signal Scorer: [TradingStrategy.generate_signal], lines 29-85 *)
Module Scorer.

(** A float64 cell of the indicator table; [None] is NaN. *)
Definition fval := option Q.

Definition f_lt (x y : fval) : bool :=
  match x, y with Some a, Some b => Qlt_bool a b | _, _ => false end.
Definition f_gt (x y : fval) : bool := f_lt y x.
Definition f_le (x y : fval) : bool :=
  match x, y with Some a, Some b => Qle_bool a b | _, _ => false end.
Definition f_ge (x y : fval) : bool := f_le y x.

(** The columns of one row of [df] that [generate_signal] reads.
    [volume_signal] is an integer column (initialised to 0, set to 1 / -1
    through [df.loc]); it is never NaN. *)
Record row := mk_row {
  close : fval;
  rsi : fval;
  macd : fval;
  macd_signal : fval;
  bb_upper : fval;
  bb_lower : fval;
  ema_fast : fval;
  ema_slow : fval;
  volume_signal : Z
}.

Inductive signal := BUY | SELL | HOLD.

Definition signal_eqb (a b : signal) : bool :=
  match a, b with
  | BUY, BUY | SELL, SELL | HOLD, HOLD => true
  | _, _ => false
  end.

(** One [if ...: buy_score += w  elif ...: sell_score += w] block. *)
Definition score_step (buy_cond sell_cond : bool) (w : Q) (acc : Q * Q) : Q * Q :=
  let '(buy_score, sell_score) := acc in
  if buy_cond then (buy_score + w, sell_score)
  else if sell_cond then (buy_score, sell_score + w)
  else (buy_score, sell_score).

(** Lines 34-71: the signal scoring system. *)
Definition signal_scores (latest prev : row) : Q * Q :=
  let acc := (0, 0) in
  (* RSI Signal (Weight: 2) *)
  let acc := score_step (f_lt (rsi latest) (Some 30)) (f_gt (rsi latest) (Some 70)) 2 acc in
  (* MACD Signal (Weight: 2) *)
  let acc := score_step
    (f_gt (macd latest) (macd_signal latest) && f_le (macd prev) (macd_signal prev))
    (f_lt (macd latest) (macd_signal latest) && f_ge (macd prev) (macd_signal prev))
    2 acc in
  (* Bollinger Bands Signal (Weight: 1.5) *)
  let acc := score_step (f_lt (close latest) (bb_lower latest))
                        (f_gt (close latest) (bb_upper latest)) (3 # 2) acc in
  (* EMA Crossover Signal (Weight: 2) *)
  let acc := score_step
    (f_gt (ema_fast latest) (ema_slow latest) && f_le (ema_fast prev) (ema_slow prev))
    (f_lt (ema_fast latest) (ema_slow latest) && f_ge (ema_fast prev) (ema_slow prev))
    2 acc in
  (* Volume Confirmation (Weight: 1.5) *)
  let acc := score_step (Z.eqb (volume_signal latest) 1)
                        (Z.eqb (volume_signal latest) (-1)) (3 # 2) acc in
  (* Trend Confirmation (Weight: 1) *)
  let acc := score_step (f_gt (close latest) (ema_slow latest))
                        (f_lt (close latest) (ema_slow latest)) 1 acc in
  acc.

(** Lines 73-81: decision logic (threshold: 5 points). *)
Definition decide_signal (scores : Q * Q) : signal :=
  let '(buy_score, sell_score) := scores in
  if Qle_bool 5 buy_score && Qlt_bool sell_score buy_score then BUY
  else if Qle_bool 5 sell_score && Qlt_bool buy_score sell_score then SELL
  else HOLD.

Definition score_rows (latest prev : row) : signal :=
  decide_signal (signal_scores latest prev).

(** [generate_signal] once the indicator columns are computed: [df.iloc[-1]]
    and [df.iloc[-2]] raise [IndexError] on fewer than two rows, which the
    [except] turns into HOLD. *)
Definition generate_signal_rows (rows : list row) : signal :=
  match rev rows with
  | latest :: prev :: _ => score_rows latest prev
  | _ => HOLD
  end.

(** The spec's reading of the score table: each condition contributes its
    weight independently. *)
Definition weighted_sum (ws : list (bool * Q)) : Q :=
  fold_right (fun (cw : bool * Q) (acc : Q) => (if fst cw then snd cw else 0) + acc) 0 ws.

Definition spec_buy_score (latest prev : row) : Q :=
  weighted_sum [
    (f_lt (rsi latest) (Some 30), 2);
    (f_gt (macd latest) (macd_signal latest) && f_le (macd prev) (macd_signal prev), 2);
    (f_lt (close latest) (bb_lower latest), 3 # 2);
    (f_gt (ema_fast latest) (ema_slow latest) && f_le (ema_fast prev) (ema_slow prev), 2);
    (Z.eqb (volume_signal latest) 1, 3 # 2);
    (f_gt (close latest) (ema_slow latest), 1)].

Definition spec_sell_score (latest prev : row) : Q :=
  weighted_sum [
    (f_gt (rsi latest) (Some 70), 2);
    (f_lt (macd latest) (macd_signal latest) && f_ge (macd prev) (macd_signal prev), 2);
    (f_gt (close latest) (bb_upper latest), 3 # 2);
    (f_lt (ema_fast latest) (ema_slow latest) && f_ge (ema_fast prev) (ema_slow prev), 2);
    (Z.eqb (volume_signal latest) (-1), 3 # 2);
    (f_lt (close latest) (ema_slow latest), 1)].

(** Rows produced by [calculate_bollinger_bands] have
    [bb_lower = middle - 2 std <= middle + 2 std = bb_upper]. *)
Definition bands_ordered (r : row) : Prop :=
  forall l u, bb_lower r = Some l -> bb_upper r = Some u -> l <= u.

(** A cell that is not NaN. *)
Definition defined (x : fval) : bool :=
  match x with Some _ => true | None => false end.

(** The amended reading of the score table: each condition counts only
    when every cell it reads is defined. *)
Definition defined_buy_score (latest prev : row) : Q :=
  weighted_sum [
    (defined (rsi latest) && f_lt (rsi latest) (Some 30), 2);
    (defined (macd latest) && defined (macd_signal latest) &&
     defined (macd prev) && defined (macd_signal prev) &&
     (f_gt (macd latest) (macd_signal latest) && f_le (macd prev) (macd_signal prev)), 2);
    (defined (close latest) && defined (bb_lower latest) &&
     f_lt (close latest) (bb_lower latest), 3 # 2);
    (defined (ema_fast latest) && defined (ema_slow latest) &&
     defined (ema_fast prev) && defined (ema_slow prev) &&
     (f_gt (ema_fast latest) (ema_slow latest) && f_le (ema_fast prev) (ema_slow prev)), 2);
    (Z.eqb (volume_signal latest) 1, 3 # 2);
    (defined (close latest) && defined (ema_slow latest) &&
     f_gt (close latest) (ema_slow latest), 1)].

Definition defined_sell_score (latest prev : row) : Q :=
  weighted_sum [
    (defined (rsi latest) && f_gt (rsi latest) (Some 70), 2);
    (defined (macd latest) && defined (macd_signal latest) &&
     defined (macd prev) && defined (macd_signal prev) &&
     (f_lt (macd latest) (macd_signal latest) && f_ge (macd prev) (macd_signal prev)), 2);
    (defined (close latest) && defined (bb_upper latest) &&
     f_gt (close latest) (bb_upper latest), 3 # 2);
    (defined (ema_fast latest) && defined (ema_slow latest) &&
     defined (ema_fast prev) && defined (ema_slow prev) &&
     (f_lt (ema_fast latest) (ema_slow latest) && f_ge (ema_fast prev) (ema_slow prev)), 2);
    (Z.eqb (volume_signal latest) (-1), 3 # 2);
    (defined (close latest) && defined (ema_slow latest) &&
     f_lt (close latest) (ema_slow latest), 1)].


End Scorer.

(** ** Indicator pipeline: [TradingStrategy.calculate_rsi], lines 87-94 *)
Module Rsi.
Import Scorer.

(** float64 division as pandas performs it on a column: [x / 0] is
    [+inf], [-inf] or NaN. *)
Inductive xfloat := Fin (q : Q) | PInf | NInf | NaN.

Definition f_div (x y : Q) : xfloat :=
  if Qeq_bool y 0 then
    (if Qeq_bool x 0 then NaN else if Qlt_bool 0 x then PInf else NInf)
  else Fin (x / y).

(** [100 - (100 / (1 + rs))]; [100 / inf = 0] and [100 / -inf = -0].
    The ratio of two averages of non-negative values is never [-1], so
    [1 + rs] is not 0 on the values that reach this function. *)
Definition rsi_from_rs (rs : xfloat) : fval :=
  match rs with
  | Fin r => Some (100 - 100 / (1 + r))
  | PInf => Some 100
  | NInf => Some 100
  | NaN => None
  end.

(** [df['close'].diff()]: the first element is NaN. *)
Fixpoint diffs (prev : Q) (xs : list Q) : list Q :=
  match xs with
  | [] => []
  | x :: xs' => (x - prev) :: diffs x xs'
  end.

Definition delta (closes : list Q) : list fval :=
  match closes with
  | [] => []
  | c :: cs => None :: map Some (diffs c cs)
  end.

(** [delta.where(delta > 0, 0)]: NaN fails the test and becomes 0. *)
Definition gain_of (d : fval) : Q :=
  match d with Some x => if Qlt_bool 0 x then x else 0 | None => 0 end.

(** [-delta.where(delta < 0, 0)]. *)
Definition loss_of (d : fval) : Q :=
  match d with Some x => if Qlt_bool x 0 then - x else 0 | None => - 0 end.

Definition Qsum (xs : list Q) : Q := fold_right Qplus 0 xs.

(** [series.rolling(window=p).mean()] at index [i] on a column without NaN:
    NaN until the window holds [p] values. *)
Definition rolling_mean (p : nat) (xs : list Q) (i : nat) : fval :=
  if Nat.ltb (S i) p then None
  else Some (Qsum (firstn p (skipn (S i - p) xs)) / inject_Z (Z.of_nat p)).

Definition rsi_period : nat := 14.

(** The [rsi] column at index [i]. *)
Definition calculate_rsi (closes : list Q) (i : nat) : fval :=
  let d := delta closes in
  let gain := rolling_mean rsi_period (map gain_of d) i in
  let loss := rolling_mean rsi_period (map loss_of d) i in
  match gain, loss with
  | Some g, Some l => rsi_from_rs (f_div g l)
  | _, _ => None
  end.

End Rsi.

(** ** Indicator pipeline: [TradingStrategy.calculate_bollinger_bands],
    lines 105-111.  The standard deviation is irrational in general, so the
    bands are real numbers; the closes stay rational. *)
Module Bollinger.

Definition bb_period : nat := 20.
Definition bb_std_mult : R := 2.

(** The 20 closes of the rolling window ending at index [i]. *)
Definition bb_window (closes : list Q) (i : nat) : list Q :=
  firstn bb_period (skipn (S i - bb_period) closes).

Definition window_mean (w : list Q) : Q :=
  Rsi.Qsum w / inject_Z (Z.of_nat bb_period).

(** Sum of squared deviations from the window mean. *)
Definition window_ssd (w : list Q) : Q :=
  Rsi.Qsum (map (fun x => (x - window_mean w) * (x - window_mean w)) w).

(** pandas' [Rolling.std()] with its default [ddof=1]: divisor [n - 1]. *)
Definition rolling_std (w : list Q) : R :=
  sqrt (Q2R (window_ssd w / inject_Z (Z.of_nat bb_period - 1))).

(** [(bb_middle, bb_upper, bb_lower)] at index [i]; NaN (None) until the
    window holds 20 closes. *)
Definition calculate_bollinger_bands (closes : list Q) (i : nat) : option (R * R * R) :=
  if Nat.ltb (S i) bb_period then None
  else
    let w := bb_window closes i in
    let bb_middle := Q2R (window_mean w) in
    let bb_std := rolling_std w in
    Some (bb_middle, (bb_middle + bb_std * bb_std_mult)%R,
          (bb_middle - bb_std * bb_std_mult)%R).

(** The spec's band width: the population standard deviation (divisor n). *)
Definition population_std (w : list Q) : R :=
  sqrt (Q2R (window_ssd w / inject_Z (Z.of_nat bb_period))).

End Bollinger.

(** ** [Backtester.calculate_statistics], lines 190-192: max drawdown *)
Module Drawdown.
Import Rsi.

(** [x * 100] on a float64 that may be infinite or NaN. *)
Definition xf_mul100 (x : xfloat) : xfloat :=
  match x with
  | Fin q => Fin (q * 100)
  | y => y
  end.

(** The smaller of two float64 values as [Series.min()] folds them: NaN
    is skipped. *)
Definition xf_min2 (a b : xfloat) : xfloat :=
  match a, b with
  | NaN, y => y
  | x, NaN => x
  | NInf, _ => NInf
  | _, NInf => NInf
  | PInf, y => y
  | x, PInf => x
  | Fin p, Fin q => if Qle_bool p q then Fin p else Fin q
  end.

(** [Series.min()] with its default [skipna=True]: NaN for an empty or
    all-NaN column. *)
Definition series_min (xs : list xfloat) : xfloat := fold_left xf_min2 xs NaN.

(** [Series.cummax()] on a column without NaN. *)
Fixpoint cummax_from (m : Q) (xs : list Q) : list Q :=
  match xs with
  | [] => []
  | x :: xs' => let m' := if Qle_bool m x then x else m in m' :: cummax_from m' xs'
  end.

Definition cummax (xs : list Q) : list Q :=
  match xs with
  | [] => []
  | x :: xs' => x :: cummax_from x xs'
  end.

(** [equity_df['drawdown'] = (equity - peak) / peak * 100] and its
    minimum, over the [equity] column of the curve. *)
Definition max_drawdown (equity_curve : list (Z * Q)) : xfloat :=
  let equity := map snd equity_curve in
  let peak := cummax equity in
  series_min (map (fun ep => xf_mul100 (f_div (fst ep - snd ep) (snd ep)))
                  (combine equity peak)).

End Drawdown.

(** ** Backtest Simulator: [Backtester.run_backtest] and
    [Backtester.calculate_statistics] ([backtest.py]) *)
Module Backtest.

(** One row of the bars DataFrame; [timestamp] is its index. *)
Record bar := mk_bar {
  timestamp : Z;
  open : Q;
  high : Q;
  low : Q;
  close : Q;
  volume : Q
}.

Definition default_bar : bar := mk_bar 0 0 0 0 0 0.

(** The risk parameters of [Config] read by the simulator. *)
Record config := mk_config {
  POSITION_SIZE_PCT : Q;
  STOP_LOSS_PCT : Q;
  TAKE_PROFIT_PCT : Q
}.

(** [Config]'s defaults: 0.1, 2.0 and 4.0. *)
Definition default_config : config := mk_config (1 # 10) 2 4.

(** The [position] dict. *)
Record position := mk_position {
  entry_price : Q;
  shares : Z;
  entry_date : Z
}.

(** A dict appended to [trades]. *)
Record trade := mk_trade {
  trade_entry_date : Z;
  exit_date : Z;
  trade_entry_price : Q;
  exit_price : Q;
  trade_shares : Z;
  pnl : Q;
  pnl_pct : Q;
  reason : string
}.

(** The local variables of [run_backtest] threaded through the loop;
    [equity_curve] holds the [(date, equity)] snapshots. *)
Record sim_state := mk_state {
  capital : Q;
  position_of : option position;
  trades : list trade;
  equity_curve : list (Z * Q)
}.

Definition init_state (initial_capital : Q) : sim_state :=
  mk_state initial_capital None [] [].

(** Python's [int(x)] on a finite float: truncation toward 0. *)
Definition py_int (q : Q) : Z := Z.quot (Qnum q) (Zpos (Qden q)).

(** [(current_price - entry_price) / entry_price * 100]. *)
Definition pnl_pct_of (p : position) (current_price : Q) : Q :=
  (current_price - entry_price p) / entry_price p * 100.

(** Lines 69-103 for one bar, given the bar and the signal computed on its
    window.  [None] is an exception escaping [run_backtest]: with
    [current_price = 0] the sizing [capital * pct / 0] is [inf] or NaN and
    [int(...)] raises. *)
Definition step (cfg : config) (b : bar) (signal : Scorer.signal)
    (st : sim_state) : option sim_state :=
  let current_price := close b in
  let current_date := timestamp b in
  let after_trade :=
    match signal, position_of st with
    | Scorer.BUY, None =>
        if Qeq_bool current_price 0 then None
        else
          let n := py_int (capital st * POSITION_SIZE_PCT cfg / current_price) in
          if Z.ltb 0 n then
            Some (mk_state (capital st - inject_Z n * current_price)
                           (Some (mk_position current_price n current_date))
                           (trades st) (equity_curve st))
          else Some st
    | _, Some p =>
        let pct := pnl_pct_of p current_price in
        let exit_reason :=
          if Scorer.signal_eqb signal Scorer.SELL then Some "SELL signal"%string
          else if Qle_bool pct (- STOP_LOSS_PCT cfg) then Some "Stop-loss"%string
          else if Qle_bool (TAKE_PROFIT_PCT cfg) pct then Some "Take-profit"%string
          else None in
        match exit_reason with
        | Some r =>
            let pnl := (current_price - entry_price p) * inject_Z (shares p) in
            Some (mk_state (capital st + inject_Z (shares p) * current_price)
                           None
                           (trades st ++
                              [mk_trade (entry_date p) current_date (entry_price p)
                                        current_price (shares p) pnl pct r])
                           (equity_curve st))
        | None => Some st
        end
    | _, None => Some st
    end in
  match after_trade with
  | None => None
  | Some st1 =>
      (* Track equity *)
      let current_equity :=
        match position_of st1 with
        | Some p => capital st1 + inject_Z (shares p) * current_price
        | None => capital st1
        end in
      Some (mk_state (capital st1) (position_of st1) (trades st1)
                     (equity_curve st1 ++ [(current_date, current_equity)]))
  end.

(** [current_bars.tail(100)]. *)
Definition tail_n {A} (n : nat) (xs : list A) : list A := skipn (List.length xs - n) xs.

(** [for i in range(...)] over the given indices; the strategy sees the
    last 100 bars of [bars.iloc[:i+1]]. *)
Fixpoint run_loop (cfg : config) (generate_signal : list bar -> Scorer.signal)
    (bars : list bar) (idx : list nat) (st : sim_state) : option sim_state :=
  match idx with
  | [] => Some st
  | i :: idx' =>
      let current_bars := firstn (S i) bars in
      let signal := generate_signal (tail_n 100 current_bars) in
      match step cfg (nth i bars default_bar) signal st with
      | None => None
      | Some st' => run_loop cfg generate_signal bars idx' st'
      end
  end.

(** Lines 114-130: close any open position at the last close.  The source
    does not reset [position] afterwards; nothing reads it any more. *)
Definition close_open_position (bars : list bar) (st : sim_state) : sim_state :=
  match position_of st with
  | None => st
  | Some p =>
      let final_bar := last bars default_bar in
      let final_price := close final_bar in
      let pnl := (final_price - entry_price p) * inject_Z (shares p) in
      mk_state (capital st + inject_Z (shares p) * final_price) (position_of st)
               (trades st ++
                  [mk_trade (entry_date p) (timestamp final_bar) (entry_price p)
                            final_price (shares p) pnl (pnl_pct_of p final_price)
                            "End of backtest"%string])
               (equity_curve st)
  end.

(** The report dict of [calculate_statistics]; [total_return] and
    [max_drawdown] are float64 values that may be infinite or NaN. *)
Record report := mk_report {
  initial_capital : Q;
  final_capital : Q;
  report_total_return : Rsi.xfloat;
  total_trades : nat;
  winning_trades : nat;
  losing_trades : nat;
  win_rate : Q;
  avg_win : Q;
  avg_loss : Q;
  profit_factor : Q;
  report_max_drawdown : Rsi.xfloat;
  report_trades : list trade;
  report_equity_curve : list (Z * Q)
}.

Definition Qmean (xs : list Q) : Q :=
  Rsi.Qsum xs / inject_Z (Z.of_nat (List.length xs)).

(** What [run_backtest] (and [calculate_statistics]) does: return a value
    (the report or [None]) or raise. *)
Inductive outcome := Returned (r : option report) | Raised.

(** Lines 172-209.  [final_capital] is a numpy float64 once a trade was
    made, so [total_return] divides as float64 does.  An empty
    [equity_curve] gives a DataFrame without an [equity] column:
    [equity_df['equity']] raises [KeyError]. *)
Definition calculate_statistics (ts : list trade) (equity : list (Z * Q))
    (ic fc : Q) : outcome :=
  match ts with
  | [] => Returned None
  | _ =>
      let total_return := Drawdown.xf_mul100 (Rsi.f_div (fc - ic) ic) in
      let total := List.length ts in
      let wins := filter (fun t => Qlt_bool 0 (pnl t)) ts in
      let losses := filter (fun t => Qlt_bool (pnl t) 0) ts in
      let win_rate :=
        if Nat.ltb 0 total
        then inject_Z (Z.of_nat (List.length wins)) / inject_Z (Z.of_nat total) * 100
        else 0 in
      let avg_win := if Nat.ltb 0 (List.length wins) then Qmean (map pnl wins) else 0 in
      let avg_loss := if Nat.ltb 0 (List.length losses) then Qmean (map pnl losses) else 0 in
      let profit_factor :=
        if negb (Qeq_bool avg_loss 0) then Qabs (avg_win / avg_loss) else 0 in
      match equity with
      | [] => Raised
      | _ =>
          Returned (Some (mk_report ic fc total_return total (List.length wins)
                            (List.length losses) win_rate avg_win avg_loss profit_factor
                            (Drawdown.max_drawdown equity) ts equity))
      end
  end.

(** [run_backtest]; [bars] is what [get_historical_data] returned. *)
Definition run_backtest (cfg : config) (generate_signal : list bar -> Scorer.signal)
    (bars : option (list bar)) (initial_capital : Q) : outcome :=
  match bars with
  | None => Returned None
  | Some bs =>
      if Nat.ltb (List.length bs) 100 then Returned None
      else
        match run_loop cfg generate_signal bs (seq 100 (List.length bs - 100))
                       (init_state initial_capital) with
        | None => Raised
        | Some st =>
            let st' := close_open_position bs st in
            calculate_statistics (trades st') (equity_curve st')
                                 initial_capital (capital st')
        end
  end.

End Backtest.

(** ** Order placement: [AlpacaTrader.place_order], lines 98-128 *)
Module Alpaca.

Inductive order_side := OrderSide_BUY | OrderSide_SELL.

(** The request objects built for [trading_client.submit_order]
    ([time_in_force] is always [TimeInForce.DAY]). *)
Inductive order_request :=
  | MarketOrderRequest (symbol : string) (qty : Q) (side : order_side)
  | LimitOrderRequest (symbol : string) (qty : Q) (side : order_side) (limit_price : Q).

Definition request_side (r : order_request) : order_side :=
  match r with
  | MarketOrderRequest _ _ s => s
  | LimitOrderRequest _ _ s _ => s
  end.

(** [str.lower] on ASCII characters. *)
Definition lower_ascii (c : ascii) : ascii :=
  let n := nat_of_ascii c in
  if Nat.leb 65 n && Nat.leb n 90 then ascii_of_nat (n + 32) else c.

Fixpoint lower (s : string) : string :=
  match s with
  | EmptyString => EmptyString
  | String c s' => String (lower_ascii c) (lower s')
  end.

(** The request that reaches the order sink, or [None] when [place_order]
    returns None before submitting.  [order_type == 'limit' and
    limit_price] is false for a missing ([None]) or zero limit price. *)
Definition place_order (symbol : string) (qty : Q) (side : string)
    (order_type : string) (limit_price : option Q) : option order_request :=
  let order_side :=
    if String.eqb (lower side) "buy" then OrderSide_BUY else OrderSide_SELL in
  if String.eqb order_type "market" then
    Some (MarketOrderRequest symbol qty order_side)
  else if String.eqb order_type "limit" then
    match limit_price with
    | Some lp => if Qeq_bool lp 0 then None
                 else Some (LimitOrderRequest symbol qty order_side lp)
    | None => None
    end
  else None.

End Alpaca.

(** ** Concrete inputs used by the examples and witnesses *)
Module Fixtures.
Import Scorer.

(** Concrete indicator rows used below. *)
Definition buy_latest : row :=
  mk_row (Some 110) (Some 25) (Some 1) (Some 0) (Some 120) (Some 90)
         (Some 105) (Some 100) 1.

Definition buy_prev : row :=
  mk_row (Some 100) (Some 40) (Some (-1)) (Some 0) (Some 120) (Some 90)
         (Some 99) (Some 100) 0.

(** Rows of a window shorter than 20 bars: the Bollinger columns are NaN
    (and [volume_ma] too, so [volume_signal] stays 0). *)
Definition nan_latest : row :=
  mk_row (Some 110) (Some 50) (Some 1) (Some 0) None None (Some 105) (Some 100) 0.

Definition nan_prev : row :=
  mk_row (Some 98) (Some 45) (Some (-1)) (Some 0) None None (Some 99) (Some 100) 0.

(** The indicator row of a flat series: RSI is 0/0 (NaN), MACD equals its
    signal line (both 0), the bands and both EMAs equal the close, and the
    volume never exceeds 1.5 times its mean. *)
Definition flat_row : Scorer.row :=
  Scorer.mk_row (Some 100) None (Some 0) (Some 0) (Some 100) (Some 100)
                (Some 100) (Some 100) 0.



(** A flat 14-bar window. *)
Definition flat14 : list Q := repeat 100 14.

(** Nineteen closes at 0 followed by one at 20: mean 1, squared deviations
    summing to 380. *)
Definition spike20 : list Q := repeat 0 19 ++ [20].

End Fixtures.

(** ** Auxiliary views of the simulator used in the proofs *)
Module BacktestAux.
Import Backtest.

(** The snapshot appended at the end of every bar. *)
Definition snapshot (b : bar) (st1 : sim_state) : sim_state :=
  mk_state (capital st1) (position_of st1) (trades st1)
    (equity_curve st1 ++
       [(timestamp b, match position_of st1 with
                      | Some p => capital st1 + inject_Z (shares p) * close b
                      | None => capital st1
                      end)]).

(** The ledger part of [step] (lines 69-103 without the snapshot). *)
Definition ledger_step (cfg : config) (b : bar) (signal : Scorer.signal)
    (st : sim_state) : option sim_state :=
  match signal, position_of st with
  | Scorer.BUY, None =>
      if Qeq_bool (close b) 0 then None
      else
        let n := py_int (capital st * POSITION_SIZE_PCT cfg / close b) in
        if Z.ltb 0 n then
          Some (mk_state (capital st - inject_Z n * close b)
                         (Some (mk_position (close b) n (timestamp b)))
                         (trades st) (equity_curve st))
        else Some st
  | _, Some p =>
      let pct := pnl_pct_of p (close b) in
      let exit_reason :=
        if Scorer.signal_eqb signal Scorer.SELL then Some "SELL signal"%string
        else if Qle_bool pct (- STOP_LOSS_PCT cfg) then Some "Stop-loss"%string
        else if Qle_bool (TAKE_PROFIT_PCT cfg) pct then Some "Take-profit"%string
        else None in
      match exit_reason with
      | Some r =>
          Some (mk_state (capital st + inject_Z (shares p) * close b) None
                  (trades st ++
                     [mk_trade (entry_date p) (timestamp b) (entry_price p) (close b)
                               (shares p) ((close b - entry_price p) * inject_Z (shares p))
                               pct r])
                  (equity_curve st))
      | None => Some st
      end
  | _, None => Some st
  end.

Definition sum_pnl (ts : list trade) : Q := Rsi.Qsum (map pnl ts).

(** Cash not in the market plus the cost of the open position. *)
Definition open_cost (st : sim_state) : Q :=
  match position_of st with
  | Some p => inject_Z (shares p) * entry_price p
  | None => 0
  end.

Definition cash_invariant (ic : Q) (st : sim_state) : Prop :=
  capital st + open_cost st == ic + sum_pnl (trades st) /\
  Forall (fun t => pnl t = (exit_price t - trade_entry_price t) * inject_Z (trade_shares t))
         (trades st).

Definition exit_with (st st' : sim_state) (price pct : Q) (r : string) : Prop :=
  position_of st' = None /\
  exists t, trades st' = trades st ++ [t] /\ reason t = r /\
            exit_price t = price /\ pnl_pct t = pct.

(** [n] bars closing flat at 100. *)
Definition flat_bars (n : nat) : list bar :=
  map (fun k => mk_bar (Z.of_nat k) 100 100 100 100 1000) (seq 0 n).

Definition always_buy : list bar -> Scorer.signal := fun _ => Scorer.BUY.


(** The spec's scenario: entry at 100, a bar at 97.9 (-2.1%) with
    [STOP_LOSS_PCT = 2] exits with "Stop-loss" although the scorer says BUY. *)
Definition long_at_100 : sim_state :=
  mk_state 9000 (Some (mk_position 100 10 0)) [] [].

End BacktestAux.

(** ** Indicator pipeline: [TradingStrategy.calculate_macd] (lines 96-103)
    and [TradingStrategy.calculate_ema] (lines 113-117) *)
Module Ema.

(** [ewm(span=s, adjust=False)]: smoothing factor [2 / (s + 1)]. *)
Definition ewm_alpha (span : Q) : Q := 2 / (span + 1).

(** With [adjust=False] pandas keeps one running value:
    [y_t = (1 - alpha) * y_(t-1) + alpha * x_t]. *)
Fixpoint ewm_from (alpha prev : Q) (xs : list Q) : list Q :=
  match xs with
  | [] => []
  | x :: xs' =>
      let y := (1 - alpha) * prev + alpha * x in
      y :: ewm_from alpha y xs'
  end.

(** [series.ewm(span=span, adjust=False).mean()] on a column without NaN:
    the first value seeds the average. *)
Definition ewm_mean (span : Q) (xs : list Q) : list Q :=
  match xs with
  | [] => []
  | x :: xs' => x :: ewm_from (ewm_alpha span) x xs'
  end.

(** Element-wise arithmetic on two columns of the same frame. *)
Fixpoint zip_with (f : Q -> Q -> Q) (xs ys : list Q) : list Q :=
  match xs, ys with
  | x :: xs', y :: ys' => f x y :: zip_with f xs' ys'
  | _, _ => []
  end.

(** [calculate_ema]: the [(ema_fast, ema_slow)] columns. *)
Definition calculate_ema (closes : list Q) : list Q * list Q :=
  (ewm_mean 9 closes, ewm_mean 21 closes).

(** [calculate_macd]: the [(macd, macd_signal, macd_hist)] columns. *)
Definition calculate_macd (closes : list Q) : list Q * list Q * list Q :=
  let ema_fast := ewm_mean 12 closes in
  let ema_slow := ewm_mean 26 closes in
  let macd := zip_with Qminus ema_fast ema_slow in
  let macd_signal := ewm_mean 9 macd in
  let macd_hist := zip_with Qminus macd macd_signal in
  (macd, macd_signal, macd_hist).

(** Every close is at least the previous one. *)
Fixpoint non_decreasing (xs : list Q) : bool :=
  match xs with
  | x :: ((y :: _) as t) => Qle_bool x y && non_decreasing t
  | _ => true
  end.

End Ema.

(** ** Indicator pipeline: [TradingStrategy.calculate_volume_signal],
    lines 119-132 *)
Module Volume.
Import Scorer.

Definition volume_period : nat := 20.

(** [df['volume'].rolling(window=20).mean()] at index [i]. *)
Definition volume_ma (vols : list Q) (i : nat) : fval :=
  Rsi.rolling_mean volume_period vols i.

(** [df['close'].shift(1)] at index [i]: NaN on the first row. *)
Definition shift1 (closes : list Q) (i : nat) : fval :=
  match i with
  | O => None
  | S j => Some (nth j closes 0)
  end.

(** [df['volume'] > df['volume_ma'] * 1.5]; NaN compares false. *)
Definition high_volume (vols : list Q) (i : nat) : bool :=
  f_gt (Some (nth i vols 0)) (option_map (fun m => m * (3 # 2)) (volume_ma vols i)).

(** The [volume_signal] cell at index [i]: initialised to 0, then the two
    [df.loc] assignments in source order. *)
Definition volume_signal_at (closes vols : list Q) (i : nat) : Z :=
  let s := 0%Z in
  let s := if high_volume vols i && f_gt (Some (nth i closes 0)) (shift1 closes i)
           then 1%Z else s in
  let s := if high_volume vols i && f_lt (Some (nth i closes 0)) (shift1 closes i)
           then (-1)%Z else s in
  s.

(** The [volume_signal] column of a frame of [length closes] rows. *)
Definition calculate_volume_signal (closes vols : list Q) : list Z :=
  map (volume_signal_at closes vols) (seq 0 (List.length closes)).

End Volume.

(** ** Predicates on close series used by the RSI facts *)
Module Series.

Fixpoint strictly_rising (xs : list Q) : bool :=
  match xs with
  | x :: ((y :: _) as t) => Qlt_bool x y && strictly_rising t
  | _ => true
  end.

Fixpoint strictly_falling (xs : list Q) : bool :=
  match xs with
  | x :: ((y :: _) as t) => Qlt_bool y x && strictly_falling t
  | _ => true
  end.

End Series.

(** ** The six if-tests and six elif-tests of the scoring blocks of
    [generate_signal] (lines 38-71), in source order *)
Module Votes.
Import Scorer.

Definition buy_conditions (latest prev : row) : list bool :=
  [f_lt (rsi latest) (Some 30);
   f_gt (macd latest) (macd_signal latest) && f_le (macd prev) (macd_signal prev);
   f_lt (close latest) (bb_lower latest);
   f_gt (ema_fast latest) (ema_slow latest) && f_le (ema_fast prev) (ema_slow prev);
   Z.eqb (volume_signal latest) 1;
   f_gt (close latest) (ema_slow latest)].

Definition sell_conditions (latest prev : row) : list bool :=
  [f_gt (rsi latest) (Some 70);
   f_lt (macd latest) (macd_signal latest) && f_ge (macd prev) (macd_signal prev);
   f_gt (close latest) (bb_upper latest);
   f_lt (ema_fast latest) (ema_slow latest) && f_ge (ema_fast prev) (ema_slow prev);
   Z.eqb (volume_signal latest) (-1);
   f_lt (close latest) (ema_slow latest)].

Definition count_true (bs : list bool) : nat := List.length (filter (fun b => b) bs).

End Votes.

(** ** [Config.SYMBOLS] ([config.py], line 18):
    [os.getenv('SYMBOLS', 'AAPL,TSLA,MSFT,GOOGL,AMZN').split(',')] *)
Module ConfigSymbols.

(** Python's [s.split(sep)] for a one-character separator: the pieces
    between separators, kept as they are (empty ones included). *)
Fixpoint split_on (sep : ascii) (s : string) : list string :=
  match s with
  | EmptyString => [EmptyString]
  | String c s' =>
      let rest := split_on sep s' in
      if Ascii.eqb c sep then EmptyString :: rest
      else match rest with
           | r :: rs => String c r :: rs
           | [] => [String c EmptyString]
           end
  end.

(** Python's [sep.join(pieces)]. *)
Fixpoint join (sep : ascii) (pieces : list string) : string :=
  match pieces with
  | [] => EmptyString
  | [p] => p
  | p :: ps => (p ++ String sep (join sep ps))%string
  end.

Definition default_symbols : string := "AAPL,TSLA,MSFT,GOOGL,AMZN".

(** [env] is the value of the environment variable, [None] when unset. *)
Definition SYMBOLS (env : option string) : list string :=
  split_on "," (match env with Some s => s | None => default_symbols end).

End ConfigSymbols.

(** ** The live loop's per-symbol step: [TradingBot.process_symbol],
    [execute_buy], [execute_sell] and [check_exit_conditions] ([main.py],
    lines 65-163) *)
Module Bot.
Import Backtest Alpaca Rsi.

(** The broker's [Position] object, as far as the bot reads it:
    [float(position.qty)] and [float(position.avg_entry_price)]. *)
Record broker_position := mk_bpos {
  bpos_qty : Q;
  avg_entry_price : Q
}.

(** What the broker answers during one call: [account.buying_power]
    ([None] when [get_account] failed and returned None),
    [get_position(symbol)] ([None] when the lookup raised), and whether
    [submit_order] returns an order (it raises otherwise, and
    [place_order] then returns None). *)
Record broker := mk_broker {
  buying_power : option Q;
  open_position : option broker_position;
  accepts : bool
}.

(** [self.active_positions]: symbol -> [(entry_price, qty)] (the
    [entry_time] entry is not modelled), an association list with Python's
    dict semantics. *)
Definition active_positions := list (string * (Q * Z)).

Fixpoint dict_get (k : string) (d : active_positions) : option (Q * Z) :=
  match d with
  | [] => None
  | (k', v) :: d' => if String.eqb k k' then Some v else dict_get k d'
  end.

(** [d[k] = v]: replaces the entry of [k] in place, or appends it. *)
Fixpoint dict_set (k : string) (v : Q * Z) (d : active_positions) : active_positions :=
  match d with
  | [] => [(k, v)]
  | (k', v') :: d' =>
      if String.eqb k k' then (k, v) :: d' else (k', v') :: dict_set k v d'
  end.

(** [del d[k]] (a dict holds each key once). *)
Definition dict_del (k : string) (d : active_positions) : active_positions :=
  filter (fun kv => negb (String.eqb k (fst kv))) d.

(** What one call does: the requests that reached [submit_order] and the
    new [active_positions]. *)
Definition effect := (list order_request * active_positions)%type.

(** [execute_buy].  With [price = 0] the size is [inf] or NaN ([price] is a
    numpy float) and [int(...)] raises; the handler swallows it. *)
Definition execute_buy (cfg : config) (br : broker) (symbol : string) (price : Q)
    (ap : active_positions) : effect :=
  match buying_power br with
  | None => ([], ap)
  | Some bp =>
      if Qeq_bool price 0 then ([], ap)
      else
        let position_size := py_int (bp * POSITION_SIZE_PCT cfg / price) in
        if Z.ltb position_size 1 then ([], ap)
        else
          match place_order symbol (inject_Z position_size) "buy" "market" None with
          | None => ([], ap)
          | Some req =>
              ([req], if accepts br then dict_set symbol (price, position_size) ap else ap)
          end
  end.

(** [execute_sell]: the whole broker position, [int(float(position.qty))]
    shares, as a market order.  The P&L it logs has no effect. *)
Definition execute_sell (br : broker) (symbol : string) (price : Q)
    (position : broker_position) (ap : active_positions) : effect :=
  let qty := py_int (bpos_qty position) in
  match place_order symbol (inject_Z qty) "sell" "market" None with
  | None => ([], ap)
  | Some req => ([req], if accepts br then dict_del symbol ap else ap)
  end.

(** [(current_price - entry_price) / entry_price * 100] with
    [current_price] a numpy float: a zero entry price gives [inf], [-inf]
    or NaN rather than an exception. *)
Definition live_pnl_pct (current_price entry_price : Q) : xfloat :=
  match f_div (current_price - entry_price) entry_price with
  | Fin q => Fin (q * 100)
  | y => y
  end.

Definition xf_le_q (x : xfloat) (q : Q) : bool :=
  match x with Fin p => Qle_bool p q | NInf => true | _ => false end.

Definition xf_ge_q (x : xfloat) (q : Q) : bool :=
  match x with Fin p => Qle_bool q p | PInf => true | _ => false end.

(** [check_exit_conditions]. *)
Definition check_exit_conditions (cfg : config) (br : broker) (symbol : string)
    (current_price : Q) (position : broker_position) (ap : active_positions) : effect :=
  let entry_price := avg_entry_price position in
  let pnl_pct := live_pnl_pct current_price entry_price in
  if xf_le_q pnl_pct (- STOP_LOSS_PCT cfg) then
    execute_sell br symbol current_price position ap
  else if xf_ge_q pnl_pct (TAKE_PROFIT_PCT cfg) then
    execute_sell br symbol current_price position ap
  else ([], ap).

(** [process_symbol]; [bars] is what [get_bars] returned and
    [generate_signal] the strategy. *)
Definition process_symbol (cfg : config) (generate_signal : list bar -> Scorer.signal)
    (br : broker) (symbol : string) (bars : option (list bar))
    (ap : active_positions) : effect :=
  match bars with
  | None | Some [] => ([], ap)
  | Some bs =>
      let position := open_position br in
      let current_price := close (last bs default_bar) in
      let signal := generate_signal bs in
      match signal, position with
      | Scorer.BUY, None => execute_buy cfg br symbol current_price ap
      | Scorer.SELL, Some p => execute_sell br symbol current_price p ap
      | _, Some p => check_exit_conditions cfg br symbol current_price p ap
      | _, None => ([], ap)
      end
  end.

End Bot.

(** ** Inputs of the report examples *)
Module ReportFixtures.
Import Backtest.

(** Two trades of opposite sign. *)
Definition sample_trades : list trade :=
  [mk_trade 0 1 100 110 10 100 10 "Take-profit"%string;
   mk_trade 2 3 100 98 10 (-20) (-2) "Stop-loss"%string].

(** An equity curve that peaks at 120 after starting at 100. *)
Definition sample_curve : list (Z * Q) := [(0%Z, 100); (1%Z, 80); (2%Z, 120); (3%Z, 90)].

End ReportFixtures.

(** ** Bounds of the drawdown column *)
Module DrawdownInv.
Import Rsi.

(** A finite drawdown percentage in (-100, 0]. *)
Definition dd_bounded (x : xfloat) : Prop := exists q, x = Fin q /\ -100 < q <= 0.

End DrawdownInv.

(** ** Invariants of the simulator used in the proofs *)
Module BacktestInv.
Import Backtest.

(** What every recorded trade satisfies. *)
Definition trade_consistent (cfg : config) (t : trade) : Prop :=
  (0 < trade_shares t)%Z /\
  pnl_pct t = (exit_price t - trade_entry_price t) / trade_entry_price t * 100 /\
  (reason t = "SELL signal"%string \/
   (reason t = "Stop-loss"%string /\ pnl_pct t <= - STOP_LOSS_PCT cfg) \/
   (reason t = "Take-profit"%string /\ TAKE_PROFIT_PCT cfg <= pnl_pct t) \/
   reason t = "End of backtest"%string).

Definition state_consistent (cfg : config) (st : sim_state) : Prop :=
  (forall p, position_of st = Some p -> (0 < shares p)%Z) /\
  Forall (trade_consistent cfg) (trades st).

(** Positions and trades are entered at a positive price. *)
Definition entries_positive (st : sim_state) : Prop :=
  (forall p, position_of st = Some p -> 0 < entry_price p) /\
  Forall (fun t => 0 < trade_entry_price t) (trades st).

(** Capital and equity are non-negative, open positions hold shares. *)
Definition funds_nonneg (st : sim_state) : Prop :=
  0 <= capital st /\
  (forall p, position_of st = Some p -> (0 < shares p)%Z) /\
  Forall (fun e => 0 <= snd e) (equity_curve st).

(** Unrealised P&L of the open position at [price]. *)
Definition unrealized (st : sim_state) (price : Q) : Q :=
  match position_of st with
  | Some p => inject_Z (shares p) * (price - entry_price p)
  | None => 0
  end.

End BacktestInv.

(* ================================================================= *)
(** * Proofs *)

Lemma Qlt_bool_iff (x y : Q) : Qlt_bool x y = true <-> x < y.
Proof.
  unfold Qlt_bool. rewrite negb_true_iff. split; intro H.
  - apply Qnot_le_lt. intro H'. apply Qle_bool_iff in H'. congruence.
  - destruct (Qle_bool y x) eqn:E; [|reflexivity].
    apply Qle_bool_iff in E. exfalso. apply (Qlt_not_le x y); assumption.
Qed.

Module ScorerFacts.
Import Scorer.

Lemma score_step_fst c1 c2 w acc :
  fst (score_step c1 c2 w acc) == fst acc + (if c1 then w else 0).
Proof.
  destruct acc as [b s]; unfold score_step; destruct c1, c2; simpl; ring.
Qed.

Lemma score_step_snd c1 c2 w acc :
  (c1 = true -> c2 = false) ->
  snd (score_step c1 c2 w acc) == snd acc + (if c2 then w else 0).
Proof.
  intro Hx; destruct acc as [b s]; unfold score_step.
  destruct c1; [rewrite (Hx eq_refl)|]; destruct c2; simpl; ring.
Qed.

Lemma f_lt_asym x y : f_lt x y = true -> f_lt y x = false.
Proof.
  destruct x as [a|], y as [b|]; simpl; try reflexivity.
  intro H; apply Qlt_bool_iff in H.
  destruct (Qlt_bool b a) eqn:E; [|reflexivity].
  apply Qlt_bool_iff in E. exfalso. apply (Qlt_irrefl a). apply (Qlt_trans _ _ _ H E).
Qed.

Lemma f_gt_lt_excl x y : f_gt x y = true -> f_lt x y = false.
Proof. unfold f_gt. apply f_lt_asym. Qed.

Lemma rsi_excl x : f_lt x (Some 30) = true -> f_gt x (Some 70) = false.
Proof.
  destruct x as [a|]; simpl; [|discriminate].
  intro H; apply Qlt_bool_iff in H.
  destruct (Qlt_bool 70 a) eqn:E; [|reflexivity].
  apply Qlt_bool_iff in E. exfalso.
  assert (H1 : 70 < 30) by (apply (Qlt_trans _ a); assumption).
  discriminate H1.
Qed.

Lemma bands_excl r :
  bands_ordered r ->
  f_lt (close r) (bb_lower r) = true -> f_gt (close r) (bb_upper r) = false.
Proof.
  unfold bands_ordered, f_gt; intros Hwf.
  destruct (close r) as [c|], (bb_lower r) as [l|] eqn:El; simpl; try discriminate.
  intro H; apply Qlt_bool_iff in H.
  destruct (bb_upper r) as [u|] eqn:Eu; [|reflexivity]. simpl.
  specialize (Hwf l u eq_refl eq_refl).
  destruct (Qlt_bool u c) eqn:E; [|reflexivity].
  apply Qlt_bool_iff in E. exfalso.
  apply (Qlt_irrefl c). apply (Qlt_le_trans _ l); [assumption|].
  apply Qle_trans with u; [assumption| apply Qlt_le_weak; assumption].
Qed.

Lemma cross_excl a b a' b' :
  f_gt a b && f_le a' b' = true -> f_lt a b && f_ge a' b' = false.
Proof.
  intro H; apply andb_true_iff in H as [H _].
  rewrite (f_gt_lt_excl _ _ H). reflexivity.
Qed.

Lemma volume_excl v : Z.eqb v 1 = true -> Z.eqb v (-1) = false.
Proof. intro H; apply Z.eqb_eq in H; subst; reflexivity. Qed.

(** The accumulated scores are the independent weighted sums. *)
Lemma signal_scores_spec latest prev :
  bands_ordered latest ->
  fst (signal_scores latest prev) == spec_buy_score latest prev /\
  snd (signal_scores latest prev) == spec_sell_score latest prev.
Proof.
  intro Hwf. unfold signal_scores. cbv zeta. split.
  - rewrite !score_step_fst. unfold spec_buy_score, weighted_sum.
    cbn [fst snd fold_right]. ring.
  - rewrite score_step_snd by apply f_gt_lt_excl.
    rewrite score_step_snd by apply volume_excl.
    rewrite score_step_snd by apply cross_excl.
    rewrite score_step_snd by apply (bands_excl _ Hwf).
    rewrite score_step_snd by apply cross_excl.
    rewrite score_step_snd by apply rsi_excl.
    unfold spec_sell_score, weighted_sum. cbn [fst snd fold_right]. ring.
Qed.

Lemma decide_signal_spec b s :
  (decide_signal (b, s) = BUY <-> 5 <= b /\ s < b) /\
  (decide_signal (b, s) = SELL <-> 5 <= s /\ b < s) /\
  (decide_signal (b, s) = HOLD <-> ~ (5 <= b /\ s < b) /\ ~ (5 <= s /\ b < s)).
Proof.
  unfold decide_signal.
  pose proof (Qle_bool_iff 5 b) as I1. pose proof (Qlt_bool_iff s b) as I2.
  pose proof (Qle_bool_iff 5 s) as I3. pose proof (Qlt_bool_iff b s) as I4.
  assert (Hasym : ~ (s < b /\ b < s)).
  { intros [H1 H2]. apply (Qlt_irrefl s). apply (Qlt_trans _ b); assumption. }
  destruct (Qle_bool 5 b), (Qlt_bool s b), (Qle_bool 5 s), (Qlt_bool b s);
  cbn [andb]; repeat split; intros;
  solve [ discriminate | reflexivity | exfalso; tauto
        | match goal with
          | I : true = true <-> ?P |- ?P => apply I; reflexivity
          end
        | tauto ].
Qed.

Lemma decide_signal_proper b s b' s' :
  b == b' -> s == s' -> decide_signal (b, s) = decide_signal (b', s').
Proof.
  intros Hb Hs. unfold decide_signal.
  assert (E1 : Qle_bool 5 b = Qle_bool 5 b').
  { apply eq_true_iff_eq. rewrite !Qle_bool_iff, Hb. tauto. }
  assert (E2 : Qlt_bool s b = Qlt_bool s' b').
  { apply eq_true_iff_eq. rewrite !Qlt_bool_iff, Hb, Hs. tauto. }
  assert (E3 : Qle_bool 5 s = Qle_bool 5 s').
  { apply eq_true_iff_eq. rewrite !Qle_bool_iff, Hs. tauto. }
  assert (E4 : Qlt_bool b s = Qlt_bool b' s').
  { apply eq_true_iff_eq. rewrite !Qlt_bool_iff, Hb, Hs. tauto. }
  rewrite E1, E2, E3, E4. reflexivity.
Qed.

Lemma score_rows_spec latest prev :
  bands_ordered latest ->
  score_rows latest prev =
  decide_signal (spec_buy_score latest prev, spec_sell_score latest prev).
Proof.
  intro Hwf. unfold score_rows.
  destruct (signal_scores_spec latest prev Hwf) as [Hb Hs].
  destruct (signal_scores latest prev) as [b s]. simpl in Hb, Hs.
  apply decide_signal_proper; assumption.
Qed.

End ScorerFacts.

Import Scorer ScorerFacts Fixtures.

Lemma buy_latest_ordered : bands_ordered buy_latest.
Proof.
  intros l u Hl Hu; injection Hl as <-; injection Hu as <-.
  apply Qle_bool_iff; reflexivity.
Qed.

(** C1: given the latest and previous indicator rows, the scorer returns
    BUY exactly when buy_score >= 5 and buy_score > sell_score, SELL exactly
    when sell_score >= 5 and sell_score > buy_score, HOLD otherwise (so a tie
    yields HOLD), where the scores are the sums of the weights 2 (RSI), 2
    (MACD crossover), 1.5 (Bollinger), 2 (EMA crossover), 1.5 (volume) and 1
    (trend) of the conditions that hold. *)
Theorem generate_signal_threshold (latest prev : row) (Hwf : bands_ordered latest) :
  let b := spec_buy_score latest prev in
  let s := spec_sell_score latest prev in
  (score_rows latest prev = BUY <-> 5 <= b /\ s < b) /\
  (score_rows latest prev = SELL <-> 5 <= s /\ b < s) /\
  (score_rows latest prev = HOLD <-> ~ (5 <= b /\ s < b) /\ ~ (5 <= s /\ b < s)) /\
  (b == s -> score_rows latest prev = HOLD).
Proof.
  intros b s. rewrite (score_rows_spec latest prev Hwf).
  destruct (decide_signal_spec b s) as (HB & HS & HH).
  fold b s. split; [exact HB|]. split; [exact HS|]. split; [exact HH|].
  intro Heq. apply HH. split.
  - intros [_ Hlt]. rewrite Heq in Hlt. exact (Qlt_irrefl _ Hlt).
  - intros [_ Hlt]. rewrite Heq in Hlt. exact (Qlt_irrefl _ Hlt).
Qed.

Lemma generate_signal_threshold_witness :
  bands_ordered buy_latest /\ score_rows buy_latest buy_prev = BUY /\
  (5 <= spec_buy_score buy_latest buy_prev /\
   spec_sell_score buy_latest buy_prev < spec_buy_score buy_latest buy_prev).
Proof.
  split; [exact buy_latest_ordered|].
  split; [reflexivity|].
  apply (proj1 (proj1 (generate_signal_threshold buy_latest buy_prev buy_latest_ordered))).
  reflexivity.
Defined.

(** C3 (counterexample): with the Bollinger columns NaN (window shorter
    than the 20-bar lookback), [generate_signal] still returns BUY from the
    MACD crossover (2), the EMA crossover (2) and the trend filter (1). *)
Lemma nan_bands_still_buy :
  bb_upper nan_latest = None /\ bb_lower nan_latest = None /\
  generate_signal_rows [nan_prev; nan_latest] = BUY.
Proof. repeat split; reflexivity. Qed.

Module NanFacts.
Import Scorer ScorerFacts.

Lemma defined_buy_score_eq latest prev :
  spec_buy_score latest prev = defined_buy_score latest prev.
Proof.
  unfold spec_buy_score, defined_buy_score.
  destruct latest as [cl rl ml sl ul ll fl el vl], prev as [cp rp mp sp up lp fp ep vp].
  cbn [close rsi macd macd_signal bb_upper bb_lower ema_fast ema_slow volume_signal].
  destruct rl, ml, sl, mp, sp, cl, ll, fl, el, fp, ep; cbn [defined andb f_lt f_gt f_le f_ge];
    rewrite ?andb_false_r; reflexivity.
Qed.

Lemma defined_sell_score_eq latest prev :
  spec_sell_score latest prev = defined_sell_score latest prev.
Proof.
  unfold spec_sell_score, defined_sell_score.
  destruct latest as [cl rl ml sl ul ll fl el vl], prev as [cp rp mp sp up lp fp ep vp].
  cbn [close rsi macd macd_signal bb_upper bb_lower ema_fast ema_slow volume_signal].
  destruct rl, ml, sl, mp, sp, cl, ul, fl, el, fp, ep; cbn [defined andb f_lt f_gt f_le f_ge];
    rewrite ?andb_false_r; reflexivity.
Qed.

End NanFacts.

(** C3 (amended): NaN does not force HOLD.  The scores the code
    accumulates are the weighted sums in which a condition reading a NaN
    cell counts 0 (its comparison is false), and [generate_signal] returns
    BUY, SELL or HOLD by the usual threshold rule on these scores. *)
Theorem nan_cells_add_no_weight (latest prev : row) (Hwf : bands_ordered latest) :
  let b := defined_buy_score latest prev in
  let s := defined_sell_score latest prev in
  fst (signal_scores latest prev) == b /\ snd (signal_scores latest prev) == s /\
  (score_rows latest prev = BUY <-> 5 <= b /\ s < b) /\
  (score_rows latest prev = SELL <-> 5 <= s /\ b < s) /\
  (score_rows latest prev = HOLD <-> ~ (5 <= b /\ s < b) /\ ~ (5 <= s /\ b < s)).
Proof.
  intros b s.
  destruct (signal_scores_spec latest prev Hwf) as [Hb Hs].
  rewrite NanFacts.defined_buy_score_eq in Hb. rewrite NanFacts.defined_sell_score_eq in Hs.
  split; [exact Hb|]. split; [exact Hs|].
  rewrite (score_rows_spec latest prev Hwf), NanFacts.defined_buy_score_eq,
    NanFacts.defined_sell_score_eq.
  exact (decide_signal_spec b s).
Qed.

Lemma nan_latest_ordered : bands_ordered nan_latest.
Proof. intros l u Hl; discriminate Hl. Qed.

Lemma nan_cells_add_no_weight_witness :
  bands_ordered nan_latest /\ bb_lower nan_latest = None /\
  score_rows nan_latest nan_prev = BUY /\
  (5 <= defined_buy_score nan_latest nan_prev /\
   defined_sell_score nan_latest nan_prev < defined_buy_score nan_latest nan_prev).
Proof.
  split; [exact nan_latest_ordered|]. split; [reflexivity|].
  split; [reflexivity|].
  apply (proj1 (proj1 (proj2 (proj2 (nan_cells_add_no_weight nan_latest nan_prev
                                                           nan_latest_ordered))))).
  reflexivity.
Defined.

Module RsiFacts.
Import Scorer Rsi.

Lemma Qsum_nonneg xs : Forall (fun x => 0 <= x) xs -> 0 <= Qsum xs.
Proof.
  induction 1 as [|x xs Hx _ IH]; simpl; [apply Qle_refl|].
  apply (Qplus_le_compat 0 x 0 (Qsum xs)) in IH; [|exact Hx]. exact IH.
Qed.

Lemma Forall_firstn_of {A} (P : A -> Prop) n xs : Forall P xs -> Forall P (firstn n xs).
Proof.
  intro H. rewrite <- (firstn_skipn n xs) in H. apply Forall_app in H. apply H.
Qed.

Lemma Forall_skipn_of {A} (P : A -> Prop) n xs : Forall P xs -> Forall P (skipn n xs).
Proof.
  intro H. rewrite <- (firstn_skipn n xs) in H. apply Forall_app in H. apply H.
Qed.

Lemma gain_of_nonneg d : 0 <= gain_of d.
Proof.
  destruct d as [x|]; simpl; [|apply Qle_refl].
  destruct (Qlt_bool 0 x) eqn:E; [|apply Qle_refl].
  apply Qlt_bool_iff in E. apply Qlt_le_weak, E.
Qed.

Lemma loss_of_nonneg d : 0 <= loss_of d.
Proof.
  destruct d as [x|]; simpl; [|discriminate].
  destruct (Qlt_bool x 0) eqn:E; [|apply Qle_refl].
  apply Qlt_bool_iff in E. Lqa.lra.
Qed.

Lemma window_mean_nonneg (f : fval -> Q) (Hf : forall d, 0 <= f d) ds i :
  0 <= Qsum (firstn rsi_period (skipn (S i - rsi_period) (map f ds)))
       / inject_Z (Z.of_nat rsi_period).
Proof.
  apply Qle_shift_div_l; [reflexivity|]. rewrite Qmult_0_l.
  apply Qsum_nonneg.
  assert (H : Forall (fun x => 0 <= x) (map f ds)).
  { apply Forall_map, Forall_forall. intros; apply Hf. }
  apply Forall_firstn_of, Forall_skipn_of, H.
Qed.

Lemma rolling_mean_full p xs i :
  (p <= S i)%nat ->
  rolling_mean p xs i =
  Some (Qsum (firstn p (skipn (S i - p) xs)) / inject_Z (Z.of_nat p)).
Proof.
  intro H. unfold rolling_mean.
  destruct (Nat.ltb (S i) p) eqn:E; [apply Nat.ltb_lt in E; lia|reflexivity].
Qed.

Lemma rsi_formula_bounds g l :
  0 <= g -> 0 < l -> 0 <= 100 - 100 / (1 + g / l) <= 100.
Proof.
  intros Hg Hl.
  assert (Hx : 0 <= g / l) by (apply Qle_shift_div_l; [exact Hl|Lqa.lra]).
  assert (Hy : 0 < 1 + g / l) by Lqa.lra.
  assert (H0 : 0 <= 100 / (1 + g / l)) by (apply Qle_shift_div_l; [exact Hy|Lqa.lra]).
  assert (H1 : 100 / (1 + g / l) <= 100) by (apply Qle_shift_div_r; [exact Hy|Lqa.lra]).
  split; Lqa.lra.
Qed.

End RsiFacts.

Import Rsi RsiFacts.

(** C6 (counterexample): on 14 flat closes the RSI window is full at index
    13, yet both averages are 0, [0 / 0] is NaN and so is the RSI. *)
Lemma rsi_flat_window_nan : calculate_rsi flat14 13 = None.
Proof. vm_compute. reflexivity. Qed.

(** C6 (amended): at every index whose 14-value window is full, the
    average gain [g] and average loss [l] are defined and non-negative;
    if [l > 0] the RSI is defined and in [0, 100]; if [l = 0] and [g > 0]
    (no negative delta, some positive one) it is 100; if both are 0 (flat
    window) it is NaN. *)
Theorem rsi_range_or_nan (closes : list Q) (i : nat) (Hi : (13 <= i)%nat) :
  exists g l,
    rolling_mean rsi_period (map gain_of (delta closes)) i = Some g /\
    rolling_mean rsi_period (map loss_of (delta closes)) i = Some l /\
    0 <= g /\ 0 <= l /\
    (0 < l -> exists r, calculate_rsi closes i = Some r /\ 0 <= r <= 100) /\
    (l == 0 -> 0 < g -> calculate_rsi closes i = Some 100) /\
    (l == 0 -> g == 0 -> calculate_rsi closes i = None).
Proof.
  assert (Hp : (rsi_period <= S i)%nat) by (unfold rsi_period; lia).
  eexists; eexists.
  split; [apply (rolling_mean_full _ _ _ Hp)|].
  split; [apply (rolling_mean_full _ _ _ Hp)|].
  split; [apply window_mean_nonneg, gain_of_nonneg|].
  split; [apply window_mean_nonneg, loss_of_nonneg|].
  pose proof (window_mean_nonneg gain_of gain_of_nonneg (delta closes) i) as Hg.
  unfold calculate_rsi. cbv zeta.
  rewrite !(rolling_mean_full _ _ _ Hp).
  set (g := Qsum _ / _) in *. set (l := Qsum _ / _).
  unfold f_div. split; [|split].
  - intro Hl. destruct (Qeq_bool l 0) eqn:E.
    + apply Qeq_bool_eq in E. Lqa.lra.
    + eexists; split; [reflexivity|]. apply rsi_formula_bounds; assumption.
  - intros Hl Hg0.
    rewrite (Qeq_eq_bool _ _ Hl).
    destruct (Qeq_bool g 0) eqn:E; [apply Qeq_bool_eq in E; Lqa.lra|].
    replace (Qlt_bool 0 g) with true by (symmetry; apply Qlt_bool_iff; exact Hg0).
    reflexivity.
  - intros Hl Hg0. rewrite (Qeq_eq_bool _ _ Hl), (Qeq_eq_bool _ _ Hg0). reflexivity.
Qed.

Lemma rsi_range_or_nan_witness :
  (13 <= 13)%nat /\ calculate_rsi flat14 13 = None.
Proof.
  split; [lia|].
  destruct (rsi_range_or_nan flat14 13 (le_n 13)) as (g & l & Hg & Hl & _ & _ & _ & _ & Hnan).
  apply Hnan.
  - vm_compute in Hl. injection Hl as <-. reflexivity.
  - vm_compute in Hg. injection Hg as <-. reflexivity.
Defined.

Import Bollinger.

Lemma Q2R_int (z : Z) : Q2R (z # 1) = IZR z.
Proof. unfold Q2R; simpl. rewrite Rinv_1. ring. Qed.

Lemma spike20_stats :
  window_mean (bb_window spike20 19) == 1 /\
  window_ssd (bb_window spike20 19) / inject_Z (Z.of_nat bb_period - 1) == 20 /\
  window_ssd (bb_window spike20 19) / inject_Z (Z.of_nat bb_period) == 19.
Proof. vm_compute. repeat split; reflexivity. Qed.

(** C7 (counterexample): on [spike20] the upper band is
    [1 + 2 * sqrt 20] (sample deviation), not [1 + 2 * sqrt 19]
    (population deviation). *)
Lemma bollinger_not_population :
  exists m u l,
    calculate_bollinger_bands spike20 19 = Some (m, u, l) /\
    u <> (m + population_std (bb_window spike20 19) * bb_std_mult)%R.
Proof.
  unfold calculate_bollinger_bands.
  replace (Nat.ltb (S 19) bb_period) with false by reflexivity. cbv zeta.
  do 3 eexists. split; [reflexivity|]. intro Heq.
  apply Rplus_eq_reg_l in Heq. unfold bb_std_mult in Heq.
  apply Rmult_eq_reg_r in Heq; [|discrR].
  unfold rolling_std, population_std in Heq.
  destruct spike20_stats as (_ & Hs & Hp).
  rewrite (Qeq_eqR _ _ Hs), (Qeq_eqR _ _ Hp) in Heq.
  rewrite !Q2R_int in Heq.
  apply sqrt_inj in Heq; Lra.lra.
Qed.

Lemma window_ssd_nonneg w : 0 <= window_ssd w.
Proof.
  unfold window_ssd. apply RsiFacts.Qsum_nonneg.
  apply Forall_map, Forall_forall. intros x _. exact (Qsqr_nonneg (x - window_mean w)).
Qed.

(** C7 (amended): at every index whose 20-close window is full, the middle
    band is the mean of the window and the bands are the middle plus/minus
    2 times the sample standard deviation (divisor n - 1 = 19), which is
    [sqrt (20/19)] times the population one; lower <= middle <= upper. *)
Theorem bollinger_sample_std (closes : list Q) (i : nat) (Hi : (19 <= i)%nat) :
  let w := bb_window closes i in
  exists m u l,
    calculate_bollinger_bands closes i = Some (m, u, l) /\
    m = Q2R (window_mean w) /\
    u = (m + 2 * sqrt (Q2R (window_ssd w) / 19))%R /\
    l = (m - 2 * sqrt (Q2R (window_ssd w) / 19))%R /\
    (l <= m <= u)%R /\
    (u - m = 2 * sqrt (20 / 19) * population_std w)%R.
Proof.
  intro w. unfold calculate_bollinger_bands.
  replace (Nat.ltb (S i) bb_period) with false
    by (symmetry; apply Nat.ltb_ge; unfold bb_period; lia).
  cbv zeta. fold w.
  assert (HS : (0 <= Q2R (window_ssd w))%R).
  { rewrite <- (Q2R_int 0). apply Qle_Rle, window_ssd_nonneg. }
  assert (Hstd : rolling_std w = sqrt (Q2R (window_ssd w) / 19)).
  { unfold rolling_std. rewrite Q2R_div by discriminate.
    change (inject_Z (Z.of_nat bb_period - 1)) with (19 # 1). rewrite Q2R_int. reflexivity. }
  assert (Hpop : population_std w = sqrt (Q2R (window_ssd w) / 20)).
  { unfold population_std. rewrite Q2R_div by discriminate.
    change (inject_Z (Z.of_nat bb_period)) with (20 # 1). rewrite Q2R_int. reflexivity. }
  assert (Hpos : (0 <= sqrt (Q2R (window_ssd w) / 19))%R) by apply sqrt_pos.
  do 3 eexists. split; [reflexivity|].
  unfold bb_std_mult. rewrite Hstd, Hpop.
  split; [reflexivity|]. split; [Lra.lra|]. split; [Lra.lra|]. split; [Lra.lra|].
  rewrite Rmult_assoc, <- sqrt_mult by (try apply Rdiv_le_0_compat; Lra.lra).
  replace (20 / 19 * (Q2R (window_ssd w) / 20))%R with (Q2R (window_ssd w) / 19)%R
    by (field; Lra.lra).
  Lra.lra.
Qed.

Lemma bollinger_sample_std_witness :
  (19 <= 19)%nat /\
  exists m u l, calculate_bollinger_bands spike20 19 = Some (m, u, l) /\
    (l <= m <= u)%R.
Proof.
  split; [lia|].
  destruct (bollinger_sample_std spike20 19 (le_n 19))
    as (m & u & l & H & _ & _ & _ & Hord & _).
  exists m, u, l. split; assumption.
Defined.

Module BacktestFacts.
Import Backtest BacktestAux.

Ltac case_ifs :=
  repeat match goal with
         | |- context [if ?c then _ else _] => destruct c
         end.

Lemma step_split cfg b sig st :
  step cfg b sig st = option_map (snapshot b) (ledger_step cfg b sig st).
Proof.
  unfold step, ledger_step. cbv zeta.
  destruct st as [c [p|] ts eq], sig; cbn [position_of]; case_ifs; reflexivity.
Qed.

Lemma ledger_step_equity cfg b sig st st1 :
  ledger_step cfg b sig st = Some st1 -> equity_curve st1 = equity_curve st.
Proof.
  unfold ledger_step. cbv zeta.
  destruct st as [c [p|] ts eq], sig; cbn [position_of]; case_ifs;
  intro H; first [discriminate | injection H as <-; reflexivity].
Qed.

Lemma step_inv cfg b sig st st' :
  step cfg b sig st = Some st' ->
  exists st1, ledger_step cfg b sig st = Some st1 /\ st' = snapshot b st1.
Proof.
  rewrite step_split. destruct (ledger_step cfg b sig st) as [st1|]; simpl;
  [intro H; injection H as <-; eauto | discriminate].
Qed.

Lemma run_loop_snapshots cfg gen bs idx st st' :
  run_loop cfg gen bs idx st = Some st' ->
  map fst (equity_curve st') =
  map fst (equity_curve st) ++ map (fun i => timestamp (nth i bs default_bar)) idx.
Proof.
  revert st. induction idx as [|i idx IH]; intros st H; simpl in H.
  - injection H as <-. rewrite app_nil_r. reflexivity.
  - destruct (step _ _ _ st) as [st1|] eqn:E; [|discriminate].
    rewrite (IH _ H).
    destruct (step_inv _ _ _ _ _ E) as (st0 & Hl & ->).
    cbn [snapshot equity_curve]. rewrite (ledger_step_equity _ _ _ _ _ Hl).
    rewrite map_app, <- app_assoc. reflexivity.
Qed.

Ltac case_ifs_in H :=
  repeat match type of H with
         | context [if ?c then _ else _] => let E := fresh "E" in destruct c eqn:E
         end.

Lemma sum_pnl_snoc ts t : sum_pnl (ts ++ [t]) == sum_pnl ts + pnl t.
Proof.
  unfold sum_pnl, Rsi.Qsum. rewrite map_app, fold_right_app. simpl.
  induction (map pnl ts) as [|x xs IH]; simpl; [ring|]. rewrite IH. ring.
Qed.

Lemma ledger_step_cash cfg b sig st st1 ic :
  cash_invariant ic st -> ledger_step cfg b sig st = Some st1 -> cash_invariant ic st1.
Proof.
  intros [Hc Hf]. unfold ledger_step. cbv zeta.
  destruct st as [c [p|] ts eq], sig; unfold cash_invariant, open_cost in *;
  cbn [position_of capital trades equity_curve shares entry_price pnl exit_price trade_entry_price trade_shares] in Hc, Hf |- *;
  intro H; case_ifs_in H; try discriminate; injection H as <-; cbn [position_of capital trades equity_curve shares entry_price pnl exit_price trade_entry_price trade_shares];
  try (split; assumption);
  split; try (rewrite sum_pnl_snoc; cbn [pnl]; Lqa.nra);
  try (apply Forall_app; split; [assumption|constructor; [reflexivity|constructor]]).
  all: first [assumption | (try rewrite Qplus_0_r in Hc); Lqa.nra].
Qed.

Lemma step_cash cfg b sig st st' ic :
  cash_invariant ic st -> step cfg b sig st = Some st' -> cash_invariant ic st'.
Proof.
  intros Hi Hs. destruct (step_inv _ _ _ _ _ Hs) as (st1 & Hl & ->).
  apply (ledger_step_cash _ _ _ _ _ _ Hi) in Hl. exact Hl.
Qed.

Lemma run_loop_cash cfg gen bs idx st st' ic :
  cash_invariant ic st -> run_loop cfg gen bs idx st = Some st' -> cash_invariant ic st'.
Proof.
  revert st. induction idx as [|i idx IH]; intros st Hi H; simpl in H.
  - injection H as <-. exact Hi.
  - destruct (step _ _ _ st) as [st1|] eqn:E; [|discriminate].
    exact (IH _ (step_cash _ _ _ _ _ _ Hi E) H).
Qed.

Lemma close_open_position_cash bs st ic :
  cash_invariant ic st ->
  capital (close_open_position bs st) == ic + sum_pnl (trades (close_open_position bs st)) /\
  Forall (fun t => pnl t = (exit_price t - trade_entry_price t) * inject_Z (trade_shares t))
         (trades (close_open_position bs st)).
Proof.
  intros [Hc Hf]. unfold close_open_position, open_cost in *.
  destruct (position_of st) as [p|]; cbn [position_of capital trades equity_curve shares entry_price pnl exit_price trade_entry_price trade_shares].
  - split; [rewrite sum_pnl_snoc; cbn [pnl]; Lqa.nra|].
    apply Forall_app; split; [assumption|constructor; [reflexivity|constructor]].
  - split; [rewrite Qplus_0_r in Hc; exact Hc|exact Hf].
Qed.

End BacktestFacts.

Import Backtest BacktestAux BacktestFacts.

Lemma run_backtest_result cfg gen bars ic rep :
  run_backtest cfg gen bars ic = Returned (Some rep) ->
  exists bs st,
    bars = Some bs /\
    run_loop cfg gen bs (seq 100 (List.length bs - 100)) (init_state ic) = Some st /\
    calculate_statistics (trades (close_open_position bs st))
      (equity_curve (close_open_position bs st)) ic
      (capital (close_open_position bs st)) = Returned (Some rep).
Proof.
  unfold run_backtest. destruct bars as [bs|]; [|discriminate].
  destruct (Nat.ltb (List.length bs) 100); [discriminate|].
  destruct (run_loop _ _ _ _ _) as [st|] eqn:Hl; [|discriminate].
  intro H. exists bs, st. split; [reflexivity|]. split; [exact Hl|exact H].
Qed.

Lemma calculate_statistics_fields ts eq ic fc rep :
  calculate_statistics ts eq ic fc = Returned (Some rep) ->
  initial_capital rep = ic /\ final_capital rep = fc /\ report_trades rep = ts.
Proof.
  unfold calculate_statistics. destruct ts; [discriminate|].
  destruct eq; [discriminate|]. intro H; injection H as <-. auto.
Qed.

(** C10: in every run that returns a report, the final capital equals the
    initial capital plus the sum of the pnl of the recorded trades
    (including the end-of-backtest closure), and each trade's pnl is
    [(exit_price - entry_price) * shares]. *)
Theorem cash_conservation (cfg : config) (gen : list bar -> Scorer.signal)
    (bars : option (list bar)) (ic : Q) (rep : report)
    (Hrun : run_backtest cfg gen bars ic = Returned (Some rep)) :
  initial_capital rep = ic /\
  final_capital rep == initial_capital rep + sum_pnl (report_trades rep) /\
  Forall (fun t => pnl t = (exit_price t - trade_entry_price t) * inject_Z (trade_shares t))
         (report_trades rep).
Proof.
  destruct (run_backtest_result _ _ _ _ _ Hrun) as (bs & st & _ & Hloop & Hstat).
  destruct (calculate_statistics_fields _ _ _ _ _ Hstat) as (-> & -> & ->).
  assert (H0 : cash_invariant ic (init_state ic)).
  { split; [|constructor]. unfold open_cost, sum_pnl; simpl. ring. }
  pose proof (run_loop_cash _ _ _ _ _ _ _ H0 Hloop) as Hinv.
  destruct (close_open_position_cash bs _ _ Hinv) as [Hc Hf].
  auto.
Qed.

Lemma cash_conservation_witness :
  exists rep,
    run_backtest default_config always_buy (Some (flat_bars 101)) 10000 = Returned (Some rep) /\
    final_capital rep == initial_capital rep + sum_pnl (report_trades rep).
Proof.
  destruct (run_backtest default_config always_buy (Some (flat_bars 101)) 10000)
    as [[rep|]|] eqn:E; [| vm_compute in E; discriminate | vm_compute in E; discriminate].
  exists rep. split; [reflexivity|].
  exact (proj1 (proj2 (cash_conservation _ _ _ _ rep E))).
Defined.

(** C5: a missing series or one of fewer than 100 bars returns None before
    any bar is simulated; on 100 bars or more the loop runs over the
    indices 100 .. n-1, recording one equity snapshot per index, and its
    final state is what the report is computed from (or it raised). *)
Theorem backtest_requires_100_bars (cfg : config) (gen : list bar -> Scorer.signal) (ic : Q) :
  run_backtest cfg gen None ic = Returned None /\
  (forall bs, (List.length bs < 100)%nat -> run_backtest cfg gen (Some bs) ic = Returned None) /\
  (forall bs, (100 <= List.length bs)%nat ->
     match run_loop cfg gen bs (seq 100 (List.length bs - 100)) (init_state ic) with
     | None => run_backtest cfg gen (Some bs) ic = Raised
     | Some st =>
         run_backtest cfg gen (Some bs) ic =
           calculate_statistics (trades (close_open_position bs st))
             (equity_curve (close_open_position bs st)) ic
             (capital (close_open_position bs st)) /\
         map fst (equity_curve st) =
           map (fun i => timestamp (nth i bs default_bar)) (seq 100 (List.length bs - 100))
     end).
Proof.
  split; [reflexivity|]. split.
  - intros bs H. unfold run_backtest.
    replace (Nat.ltb (List.length bs) 100) with true by (symmetry; apply Nat.ltb_lt, H).
    reflexivity.
  - intros bs H. unfold run_backtest.
    replace (Nat.ltb (List.length bs) 100) with false by (symmetry; apply Nat.ltb_ge, H).
    destruct (run_loop _ _ _ _ _) as [st|] eqn:E; [|reflexivity].
    split; [reflexivity|].
    rewrite (run_loop_snapshots _ _ _ _ _ _ E). reflexivity.
Qed.

Lemma backtest_requires_100_bars_witness :
  (List.length (flat_bars 50) < 100)%nat /\
  run_backtest default_config always_buy (Some (flat_bars 50)) 10000 = Returned None.
Proof.
  assert (H : (List.length (flat_bars 50) < 100)%nat) by (apply Nat.ltb_lt; reflexivity).
  split; [exact H|].
  exact (proj1 (proj2 (backtest_requires_100_bars default_config always_buy 10000)) _ H).
Defined.

(** C2: per bar, the ledger holds at most one position (an [option]);
    a BUY while a position is open opens nothing and leaves the position
    as it is unless the stop-loss / take-profit check closes it; any other
    signal while no position is open changes neither position, cash nor
    trades; a position closure appends exactly one trade and no other
    transition appends any, including the end-of-backtest closure. *)
Theorem single_open_position (cfg : config) (b : bar) (sig : Scorer.signal)
    (st st' : sim_state) (Hstep : step cfg b sig st = Some st') :
  (forall p, position_of st = Some p -> sig = Scorer.BUY ->
     (position_of st' = Some p /\ trades st' = trades st) \/
     (position_of st' = None /\ exists t, trades st' = trades st ++ [t] /\
        (reason t = "Stop-loss"%string \/ reason t = "Take-profit"%string))) /\
  (position_of st = None -> sig <> Scorer.BUY ->
     position_of st' = None /\ capital st' = capital st /\ trades st' = trades st) /\
  (((exists p, position_of st = Some p) /\ position_of st' = None /\
      exists t, trades st' = trades st ++ [t]) \/
   (trades st' = trades st /\ (position_of st' = None -> position_of st = None))) /\
  (forall bs,
     (position_of st' = None -> trades (close_open_position bs st') = trades st') /\
     (forall p, position_of st' = Some p ->
        exists t, trades (close_open_position bs st') = trades st' ++ [t] /\
                  reason t = "End of backtest"%string)).
Proof.
  destruct (step_inv _ _ _ _ _ Hstep) as (st1 & Hl & ->). clear Hstep.
  assert (Hend : forall bs,
     (position_of (snapshot b st1) = None ->
        trades (close_open_position bs (snapshot b st1)) = trades (snapshot b st1)) /\
     (forall p, position_of (snapshot b st1) = Some p ->
        exists t, trades (close_open_position bs (snapshot b st1)) =
                  trades (snapshot b st1) ++ [t] /\ reason t = "End of backtest"%string)).
  { intro bs. unfold close_open_position. split.
    - intro H; rewrite H; reflexivity.
    - intros p H; rewrite H. eexists; split; reflexivity. }
  unfold snapshot in *. cbn [position_of capital trades] in *.
  unfold ledger_step in Hl. cbv zeta in Hl.
  destruct st as [c [p|] ts eq], sig; cbn [position_of capital trades] in *;
  case_ifs_in Hl; try discriminate; injection Hl as <-;
  cbn [position_of capital trades] in *;
  (split; [|split; [|split; [|exact Hend]]]);
  intros; try discriminate; try congruence.
  all: first [ left; split; [congruence | reflexivity]
             | right; split; [reflexivity | eexists; split; [reflexivity | cbn; auto]]
             | left; split; [eexists; reflexivity | split; [reflexivity | eexists; reflexivity]]
             | right; split; [reflexivity | intros; congruence]
             | repeat split; reflexivity ].
Qed.

Lemma single_open_position_witness :
  exists st',
    step default_config (mk_bar 1 100 100 100 100 1000) Scorer.SELL
      (init_state 10000) = Some st' /\
    position_of st' = None /\ capital st' = capital (init_state 10000) /\
    trades st' = trades (init_state 10000).
Proof.
  destruct (step default_config (mk_bar 1 100 100 100 100 1000) Scorer.SELL
              (init_state 10000)) as [st'|] eqn:E;
    [| vm_compute in E; discriminate].
  exists st'. split; [reflexivity|].
  apply (proj1 (proj2 (single_open_position _ _ _ _ _ E))); [reflexivity | discriminate].
Defined.

Ltac qbool_contra :=
  match goal with
  | H : ?x <= ?y, E : Qle_bool ?x ?y = false |- _ =>
      apply Qle_bool_iff in H; congruence
  | H : ~ ?x <= ?y, E : Qle_bool ?x ?y = true |- _ =>
      apply Qle_bool_iff in E; contradiction
  end.

(** C4: on a bar with an open position the exit checks run in the order
    SELL signal, stop-loss ([pnl_pct <= -STOP_LOSS_PCT]), take-profit
    ([pnl_pct >= TAKE_PROFIT_PCT]); the first that holds closes the position
    with its reason, whatever the later ones say; if none holds the
    position is kept. *)
Theorem exit_order (cfg : config) (b : bar) (sig : Scorer.signal)
    (st : sim_state) (p : position) (Hopen : position_of st = Some p) :
  let pct := pnl_pct_of p (close b) in
  exists st', step cfg b sig st = Some st' /\
    (sig = Scorer.SELL -> exit_with st st' (close b) pct "SELL signal") /\
    (sig <> Scorer.SELL -> pct <= - STOP_LOSS_PCT cfg ->
       exit_with st st' (close b) pct "Stop-loss") /\
    (sig <> Scorer.SELL -> ~ pct <= - STOP_LOSS_PCT cfg -> TAKE_PROFIT_PCT cfg <= pct ->
       exit_with st st' (close b) pct "Take-profit") /\
    (sig <> Scorer.SELL -> ~ pct <= - STOP_LOSS_PCT cfg -> ~ TAKE_PROFIT_PCT cfg <= pct ->
       position_of st' = Some p /\ trades st' = trades st).
Proof.
  cbv zeta. destruct st as [c pos ts eq]. cbn [position_of] in Hopen. subst pos.
  unfold step, exit_with. cbv zeta.
  destruct sig; cbn [Scorer.signal_eqb position_of];
  destruct (Qle_bool (pnl_pct_of p (close b)) (- STOP_LOSS_PCT cfg)) eqn:Esl;
  destruct (Qle_bool (TAKE_PROFIT_PCT cfg) (pnl_pct_of p (close b))) eqn:Etp;
  eexists; (split; [reflexivity|]); cbn [position_of trades capital];
  repeat split; intros; try discriminate; try congruence; try qbool_contra;
  eexists; repeat split.
Qed.

Lemma exit_order_witness :
  position_of long_at_100 = Some (mk_position 100 10 0) /\
  exists st',
    step default_config (mk_bar 1 (979 # 10) (979 # 10) (979 # 10) (979 # 10) 1000) Scorer.BUY long_at_100
      = Some st' /\
    exit_with long_at_100 st' (979 # 10) (pnl_pct_of (mk_position 100 10 0) (979 # 10))
      "Stop-loss".
Proof.
  split; [reflexivity|].
  destruct (exit_order default_config (mk_bar 1 (979 # 10) (979 # 10) (979 # 10) (979 # 10) 1000)
              Scorer.BUY long_at_100 (mk_position 100 10 0) eq_refl)
    as (st' & Hs & _ & Hsl & _).
  exists st'. split; [exact Hs|].
  apply Hsl; [discriminate|].
  apply Qle_bool_iff. reflexivity.
Defined.


(** A flat indicator row scores HOLD, and a run whose strategy never
    answers BUY never opens a position. *)
Module FlatFacts.
Import Scorer.




Import Backtest.



End FlatFacts.

Import FlatFacts.



Import Alpaca.

(** C9 (counterexample): a market order with side "hold" is not rejected;
    it reaches the sink as a SELL order. *)
Lemma unknown_side_submitted_as_sell :
  place_order "AAPL" 1 "hold" "market" None =
  Some (MarketOrderRequest "AAPL" 1 OrderSide_SELL).
Proof. reflexivity. Qed.

(** C9 (amended): [place_order] returns before the sink exactly when the
    order type is neither "market" nor a "limit" with a non-zero limit
    price; a market order needs only qty and side; the side is not
    validated: a side whose lower-case form is not "buy" is sent as SELL. *)
Theorem place_order_validation (symbol : string) (qty : Q) (side order_type : string)
    (limit_price : option Q) :
  (place_order symbol qty side order_type limit_price = None <->
     order_type <> "market"%string /\
     ~ (order_type = "limit"%string /\ exists lp, limit_price = Some lp /\ ~ lp == 0)) /\
  (order_type = "limit"%string -> limit_price = None ->
     place_order symbol qty side order_type limit_price = None) /\
  (order_type = "market"%string ->
     exists s, place_order symbol qty side order_type limit_price =
               Some (MarketOrderRequest symbol qty s)) /\
  (forall r, place_order symbol qty side order_type limit_price = Some r ->
     request_side r = if String.eqb (lower side) "buy" then OrderSide_BUY
                      else OrderSide_SELL).
Proof.
  unfold place_order.
  destruct (String.eqb order_type "market") eqn:Em.
  - apply String.eqb_eq in Em. subst order_type.
    split; [split; [discriminate| intros [H _]; contradiction H; reflexivity]|].
    split; [discriminate|].
    split; [intros _; eexists; reflexivity|].
    intros r H; injection H as <-. reflexivity.
  - apply String.eqb_neq in Em.
    destruct (String.eqb order_type "limit") eqn:El.
    + apply String.eqb_eq in El. subst order_type.
      destruct limit_price as [lp|].
      * destruct (Qeq_bool lp 0) eqn:Eq.
        -- apply Qeq_bool_eq in Eq.
           split; [split; [intros _; split; [exact Em|] | reflexivity]|].
           { intros [_ (lp' & Hlp & Hnz)]. injection Hlp as <-. contradiction. }
           split; [discriminate|]. split; [intro H; discriminate H|].
           intros r H; discriminate H.
        -- apply Qeq_bool_neq in Eq.
           split; [split; [discriminate|]|].
           { intros [_ H]. exfalso. apply H. split; [reflexivity|]. exists lp. auto. }
           split; [discriminate|]. split; [intro H; discriminate H|].
           intros r H; injection H as <-. reflexivity.
      * split; [split; [intros _; split; [exact Em|] | reflexivity]|].
        { intros [_ (lp' & Hlp & _)]. discriminate Hlp. }
        split; [reflexivity|]. split; [intro H; contradiction|].
        intros r H; discriminate H.
    + apply String.eqb_neq in El.
      split; [split; [intros _; split; [exact Em|] | reflexivity]|].
      { intros [H _]. contradiction. }
      split; [intro H; contradiction|]. split; [intro H; contradiction|].
      intros r H; discriminate H.
Qed.

Lemma place_order_validation_witness :
  place_order "AAPL" 1 "Buy" "limit" None = None /\
  request_side (MarketOrderRequest "AAPL" 1 OrderSide_BUY) = OrderSide_BUY.
Proof.
  split.
  - apply (proj1 (proj2 (place_order_validation "AAPL" 1 "Buy" "limit" None)));
      reflexivity.
  - apply (proj2 (proj2 (proj2 (place_order_validation "AAPL" 1 "Buy" "market" None)))).
    reflexivity.
Defined.


(* ================================================================= *)
(** * Further properties of the indicators, the simulator and the live loop *)

Module EmaFacts.
Import Ema.

Lemma ewm_alpha_bounds span : 1 <= span -> 0 < ewm_alpha span /\ ewm_alpha span <= 1.
Proof.
  intro Hs. unfold ewm_alpha.
  assert (Hp : 0 < span + 1) by (Lqa.lra).
  split.
  - apply Qlt_shift_div_l; [exact Hp|]. Lqa.lra.
  - apply Qle_shift_div_r; [exact Hp|]. Lqa.lra.
Qed.

Lemma ewm_from_bounds a lo hi prev xs :
  0 <= a <= 1 -> lo <= prev <= hi -> Forall (fun x => lo <= x <= hi) xs ->
  Forall (fun y => lo <= y <= hi) (ewm_from a prev xs).
Proof.
  intros Ha. revert prev. induction xs as [|x xs IH]; intros prev Hp Hxs; simpl; [constructor|].
  inversion Hxs as [|? ? Hx Hxs']; subst.
  assert (Hy : lo <= (1 - a) * prev + a * x <= hi) by (split; Lqa.nra).
  constructor; [exact Hy|]. apply IH; assumption.
Qed.

Lemma ewm_mean_bounds span lo hi xs :
  1 <= span -> Forall (fun x => lo <= x <= hi) xs ->
  Forall (fun y => lo <= y <= hi) (ewm_mean span xs).
Proof.
  intros Hs Hxs. destruct xs as [|x xs]; simpl; [constructor|].
  inversion Hxs; subst. constructor; [assumption|].
  destruct (ewm_alpha_bounds span Hs). apply ewm_from_bounds; auto.
  split; Lqa.lra.
Qed.

Lemma ewm_from_proper a p p' xs ys :
  p == p' -> Forall2 Qeq xs ys -> Forall2 Qeq (ewm_from a p xs) (ewm_from a p' ys).
Proof.
  intros Hp Hxy. revert p p' Hp. induction Hxy as [|x y xs ys Hxy Hr IH]; intros p p' Hp;
  simpl; constructor.
  - rewrite Hp, Hxy. reflexivity.
  - apply IH. rewrite Hp, Hxy. reflexivity.
Qed.

Lemma ewm_mean_proper s xs ys :
  Forall2 Qeq xs ys -> Forall2 Qeq (ewm_mean s xs) (ewm_mean s ys).
Proof.
  intro H. destruct H as [|x y xs ys Hxy Hr]; simpl; constructor; [assumption|].
  apply ewm_from_proper; assumption.
Qed.

Lemma zip_with_minus_proper xs xs' ys ys' :
  Forall2 Qeq xs xs' -> Forall2 Qeq ys ys' ->
  Forall2 Qeq (zip_with Qminus xs ys) (zip_with Qminus xs' ys').
Proof.
  intro H. revert ys ys'. induction H as [|x x' xs xs' Hx Hr IH]; intros ys ys' Hy;
  [constructor|]. destruct Hy as [|y y' ys ys' Hy Hr']; simpl; constructor.
  - rewrite Hx, Hy. reflexivity.
  - apply IH; assumption.
Qed.

Lemma Forall2_Qeq_refl xs : Forall2 Qeq xs xs.
Proof. induction xs; constructor; [reflexivity|assumption]. Qed.

Lemma Forall2_Qeq_trans xs ys zs :
  Forall2 Qeq xs ys -> Forall2 Qeq ys zs -> Forall2 Qeq xs zs.
Proof.
  intro H. revert zs. induction H as [|x y xs ys Hxy Hr IH]; intros zs Hz; [exact Hz|].
  inversion Hz as [|? z ? zs' Hyz Hr']; subst. constructor.
  - rewrite Hxy; exact Hyz.
  - apply IH; assumption.
Qed.

Lemma ewm_from_shift a c p p' xs :
  p' == p + c ->
  Forall2 Qeq (ewm_from a p' (map (fun x => x + c) xs))
              (map (fun y => y + c) (ewm_from a p xs)).
Proof.
  revert p p'. induction xs as [|x xs IH]; intros p p' Hp; simpl; constructor.
  - rewrite Hp. ring.
  - apply IH. rewrite Hp. ring.
Qed.

Lemma ewm_mean_shift s c xs :
  Forall2 Qeq (ewm_mean s (map (fun x => x + c) xs))
              (map (fun y => y + c) (ewm_mean s xs)).
Proof.
  destruct xs as [|x xs]; simpl; constructor; [reflexivity|].
  apply ewm_from_shift. reflexivity.
Qed.

Lemma zip_with_minus_shift c xs ys :
  Forall2 Qeq (zip_with Qminus (map (fun x => x + c) xs) (map (fun y => y + c) ys))
              (zip_with Qminus xs ys).
Proof.
  revert ys. induction xs as [|x xs IH]; intros [|y ys]; simpl; constructor.
  - ring.
  - apply IH.
Qed.

Lemma ewm_from_const a c p xs :
  p == c -> Forall (fun x => x == c) xs -> Forall (fun y => y == c) (ewm_from a p xs).
Proof.
  intro Hp. revert p Hp. induction xs as [|x xs IH]; intros p Hp Hxs; simpl; constructor;
  inversion Hxs; subst.
  - rewrite Hp, H1. ring.
  - apply IH; [|assumption]. rewrite Hp, H1. ring.
Qed.

Lemma ewm_mean_const s c xs :
  Forall (fun x => x == c) xs -> Forall (fun y => y == c) (ewm_mean s xs).
Proof.
  intro H. destruct xs as [|x xs]; simpl; [constructor|].
  inversion H; subst. constructor; [assumption|]. apply ewm_from_const; assumption.
Qed.

Lemma zip_with_minus_const c xs ys :
  Forall (fun x => x == c) xs -> Forall (fun y => y == c) ys ->
  Forall (fun z => z == 0) (zip_with Qminus xs ys).
Proof.
  intro H. revert ys. induction H as [|x xs Hx Hr IH]; intros [|y ys] Hy; simpl;
  [constructor | constructor | constructor |].
  inversion Hy as [|? ? Hy1 Hy2]; subst. constructor.
  - Lqa.lra.
  - apply IH; assumption.
Qed.

Lemma ewm_from_lag a prev x xs :
  0 <= a <= 1 -> prev <= x -> non_decreasing (x :: xs) = true ->
  Forall2 Qle (ewm_from a prev (x :: xs)) (x :: xs).
Proof.
  intro Ha. revert prev x. induction xs as [|x' xs IH]; intros prev x Hp Hnd; simpl.
  - constructor; [Lqa.nra | constructor].
  - cbn [non_decreasing] in Hnd. apply andb_true_iff in Hnd as [Hxx Hnd].
    apply Qle_bool_iff in Hxx.
    assert (Hy : (1 - a) * prev + a * x <= x) by Lqa.nra.
    constructor; [exact Hy|].
    apply (IH _ x'); [Lqa.lra | exact Hnd].
Qed.

Lemma ewm_mean_lag s xs :
  1 <= s -> non_decreasing xs = true -> Forall2 Qle (ewm_mean s xs) xs.
Proof.
  intros Hs Hnd. destruct xs as [|x xs]; simpl; [constructor|].
  constructor; [apply Qle_refl|].
  destruct xs as [|x' xs]; [constructor|].
  cbn [non_decreasing] in Hnd. apply andb_true_iff in Hnd as [Hxx Hnd].
  apply Qle_bool_iff in Hxx.
  destruct (ewm_alpha_bounds s Hs).
  apply ewm_from_lag; [split; Lqa.lra | exact Hxx | exact Hnd].
Qed.

End EmaFacts.

Import Ema EmaFacts.

(** The two EMA columns of [calculate_ema] stay within the range of the
    closes: if every close lies in [[lo, hi]], so does every [ema_fast] and
    [ema_slow] value (each is a convex combination of closes). *)
Theorem ema_within_close_range (closes : list Q) (lo hi : Q)
    (Hrange : Forall (fun x => lo <= x <= hi) closes) :
  Forall (fun y => lo <= y <= hi) (fst (calculate_ema closes)) /\
  Forall (fun y => lo <= y <= hi) (snd (calculate_ema closes)).
Proof.
  unfold calculate_ema; cbn [fst snd].
  split; apply ewm_mean_bounds; try assumption; unfold Qle; simpl; lia.
Qed.

Lemma ema_within_close_range_witness :
  Forall (fun x => 1 <= x <= 3) [1; 3; 2] /\
  Forall (fun y => 1 <= y <= 3) (snd (calculate_ema [1; 3; 2])).
Proof.
  assert (H : Forall (fun x => 1 <= x <= 3) [1; 3; 2]).
  { repeat constructor; unfold Qle; simpl; lia. }
  split; [exact H|]. exact (proj2 (ema_within_close_range _ _ _ H)).
Defined.

(** Adding a constant [c] to every close adds [c] to both EMA columns and
    leaves the [macd], [macd_signal] and [macd_hist] columns unchanged. *)
Theorem macd_shift_invariant (closes : list Q) (c : Q) :
  Forall2 Qeq (fst (calculate_ema (map (fun x => x + c) closes)))
              (map (fun y => y + c) (fst (calculate_ema closes))) /\
  Forall2 Qeq (snd (calculate_ema (map (fun x => x + c) closes)))
              (map (fun y => y + c) (snd (calculate_ema closes))) /\
  let '(macd, macd_signal, macd_hist) := calculate_macd closes in
  let '(macd', macd_signal', macd_hist') := calculate_macd (map (fun x => x + c) closes) in
  Forall2 Qeq macd' macd /\ Forall2 Qeq macd_signal' macd_signal /\
  Forall2 Qeq macd_hist' macd_hist.
Proof.
  unfold calculate_ema, calculate_macd; cbn [fst snd]. cbv zeta.
  split; [apply ewm_mean_shift|]. split; [apply ewm_mean_shift|].
  assert (Hm : Forall2 Qeq
      (zip_with Qminus (ewm_mean 12 (map (fun x => x + c) closes))
                       (ewm_mean 26 (map (fun x => x + c) closes)))
      (zip_with Qminus (ewm_mean 12 closes) (ewm_mean 26 closes))).
  { eapply Forall2_Qeq_trans;
      [apply zip_with_minus_proper; apply ewm_mean_shift | apply zip_with_minus_shift]. }
  assert (Hs := ewm_mean_proper 9 _ _ Hm).
  split; [exact Hm|]. split; [exact Hs|].
  apply zip_with_minus_proper; assumption.
Qed.

(** On a constant close series every EMA value equals the close, and the
    [macd], [macd_signal] and [macd_hist] columns are all 0, so neither
    MACD line crosses the other. *)
Theorem flat_series_macd_zero (closes : list Q) (c : Q)
    (Hflat : Forall (fun x => x == c) closes) :
  Forall (fun y => y == c) (fst (calculate_ema closes)) /\
  Forall (fun y => y == c) (snd (calculate_ema closes)) /\
  let '(macd, macd_signal, macd_hist) := calculate_macd closes in
  Forall (fun y => y == 0) macd /\ Forall (fun y => y == 0) macd_signal /\
  Forall (fun y => y == 0) macd_hist.
Proof.
  unfold calculate_ema, calculate_macd; cbn [fst snd]. cbv zeta.
  split; [apply ewm_mean_const; exact Hflat|].
  split; [apply ewm_mean_const; exact Hflat|].
  assert (Hm : Forall (fun y => y == 0)
                 (zip_with Qminus (ewm_mean 12 closes) (ewm_mean 26 closes))).
  { apply (zip_with_minus_const c); apply ewm_mean_const; exact Hflat. }
  assert (Hs := ewm_mean_const 9 _ _ Hm).
  split; [exact Hm|]. split; [exact Hs|].
  apply (zip_with_minus_const 0); assumption.
Qed.

Lemma flat_series_macd_zero_witness :
  Forall (fun x => x == 100) (repeat 100 30) /\
  Forall (fun y => y == 0) (fst (fst (calculate_macd (repeat 100 30)))).
Proof.
  assert (H : Forall (fun x => x == 100) (repeat 100 30)).
  { apply Forall_forall. intros x Hx. apply repeat_spec in Hx. subst. reflexivity. }
  split; [exact H|].
  pose proof (proj2 (proj2 (flat_series_macd_zero _ _ H))) as Hm.
  exact (proj1 Hm).
Defined.

(** On a non-decreasing close series both EMAs lag: at every row
    [ema_fast <= close] and [ema_slow <= close]. *)
Theorem ema_lags_rising_closes (closes : list Q)
    (Hnd : non_decreasing closes = true) :
  Forall2 Qle (fst (calculate_ema closes)) closes /\
  Forall2 Qle (snd (calculate_ema closes)) closes.
Proof.
  unfold calculate_ema; cbn [fst snd].
  split; apply ewm_mean_lag; try assumption; unfold Qle; simpl; lia.
Qed.

Lemma ema_lags_rising_closes_witness :
  non_decreasing [100; 101; 101; 103] = true /\
  Forall2 Qle (snd (calculate_ema [100; 101; 101; 103])) [100; 101; 101; 103].
Proof.
  assert (H : non_decreasing [100; 101; 101; 103] = true) by reflexivity.
  split; [exact H|]. exact (proj2 (ema_lags_rising_closes _ H)).
Defined.

Module RsiFacts2.
Import Scorer Rsi RsiFacts Series.

Lemma Qsum_pos xs x :
  Forall (fun y => 0 <= y) xs -> In x xs -> 0 < x -> 0 < Qsum xs.
Proof.
  intros Hall Hin Hx. induction Hall as [|y ys Hy Hys IH]; [destruct Hin|].
  simpl. destruct Hin as [<-|Hin].
  - pose proof (Qsum_nonneg ys Hys). Lqa.lra.
  - specialize (IH Hin). Lqa.lra.
Qed.

Lemma Qsum_zero xs : Forall (fun y => y == 0) xs -> Qsum xs == 0.
Proof.
  induction 1 as [|y ys Hy _ IH]; simpl; [reflexivity|]. rewrite Hy, IH. reflexivity.
Qed.

(** The last cell of a full rolling window is the cell at [i]. *)
Lemma window_last_in {A} (p i : nat) (l : list A) (d : A) :
  (1 <= p)%nat -> (p <= S i)%nat -> (i < List.length l)%nat ->
  In (nth i l d) (firstn p (skipn (S i - p) l)).
Proof.
  intros H1 H2 H3.
  assert (E : nth i l d = nth (p - 1) (firstn p (skipn (S i - p) l)) d).
  { rewrite nth_firstn.
    replace (Nat.ltb (p - 1) p) with true by (symmetry; apply Nat.ltb_lt; lia).
    rewrite nth_skipn. f_equal. lia. }
  rewrite E. apply nth_In. rewrite length_firstn, length_skipn. lia.
Qed.

Lemma rising_diffs c cs :
  strictly_rising (c :: cs) = true -> Forall (fun d => 0 < d) (diffs c cs).
Proof.
  revert c. induction cs as [|x xs IH]; intros c H; simpl; [constructor|].
  cbn [strictly_rising] in H. apply andb_true_iff in H as [Hc H].
  apply Qlt_bool_iff in Hc. constructor; [Lqa.lra|]. apply IH, H.
Qed.

Lemma falling_diffs c cs :
  strictly_falling (c :: cs) = true -> Forall (fun d => d < 0) (diffs c cs).
Proof.
  revert c. induction cs as [|x xs IH]; intros c H; simpl; [constructor|].
  cbn [strictly_falling] in H. apply andb_true_iff in H as [Hc H].
  apply Qlt_bool_iff in Hc. constructor; [Lqa.lra|]. apply IH, H.
Qed.

Lemma length_diffs c cs : List.length (diffs c cs) = List.length cs.
Proof. revert c; induction cs; intros; simpl; auto. Qed.

(** The delta at row [S j]. *)
Lemma delta_nth c cs j :
  (j < List.length cs)%nat -> nth (S j) (delta (c :: cs)) None = Some (nth j (diffs c cs) 0).
Proof.
  intro Hj. simpl.
  rewrite (nth_indep _ None (Some 0)) by (rewrite length_map, length_diffs; exact Hj).
  apply (map_nth Some).
Qed.

Lemma nth_map_fval (f : fval -> Q) l i :
  (i < List.length l)%nat -> nth i (map f l) 0 = f (nth i l None).
Proof.
  intro H. rewrite (nth_indep _ 0 (f None)) by (rewrite length_map; exact H).
  apply map_nth.
Qed.

Lemma length_delta cs : List.length (delta cs) = List.length cs.
Proof. destruct cs; simpl; [reflexivity|]. rewrite length_map, length_diffs. reflexivity. Qed.

Lemma rsi_window_pos (f : fval -> Q) (Hf : forall d, 0 <= f d) closes i :
  (13 <= i)%nat -> (i < List.length closes)%nat -> 0 < f (nth i (delta closes) None) ->
  0 < Qsum (firstn rsi_period (skipn (S i - rsi_period) (map f (delta closes)))).
Proof.
  intros H1 H2 H3.
  apply (Qsum_pos _ (nth i (map f (delta closes)) 0)).
  - apply Forall_firstn_of, Forall_skipn_of, Forall_map, Forall_forall. intros; apply Hf.
  - apply window_last_in; unfold rsi_period; [lia|lia|]. rewrite length_map, length_delta. exact H2.
  - rewrite nth_map_fval by (rewrite length_delta; exact H2). exact H3.
Qed.

Lemma rsi_window_zero (f : fval -> Q) closes i :
  Forall (fun y => y == 0) (map f (delta closes)) ->
  Qsum (firstn rsi_period (skipn (S i - rsi_period) (map f (delta closes)))) == 0.
Proof.
  intro H. apply Qsum_zero, Forall_firstn_of, Forall_skipn_of, H.
Qed.

End RsiFacts2.

Import Rsi RsiFacts RsiFacts2 Series.

(** From row 13 on, a strictly rising close series has RSI exactly 100
    (no losses, [rs = inf]) and a strictly falling one has RSI 0 (no
    gains). *)
Theorem rsi_monotone_extremes (closes : list Q) (i : nat)
    (H13 : (13 <= i)%nat) (Hlen : (i < List.length closes)%nat) :
  (strictly_rising closes = true -> calculate_rsi closes i = Some 100) /\
  (strictly_falling closes = true ->
     exists r, calculate_rsi closes i = Some r /\ r == 0).
Proof.
  destruct closes as [|c cs]; [simpl in Hlen; lia|].
  destruct i as [|j]; [lia|]. simpl in Hlen.
  assert (Hp : (rsi_period <= S (S j))%nat) by (unfold rsi_period; lia).
  assert (Hj : (j < List.length (diffs c cs))%nat) by (rewrite length_diffs; lia).
  unfold calculate_rsi. cbv zeta. rewrite !(rolling_mean_full _ _ _ Hp).
  split.
  - intro Hr. pose proof (rising_diffs c cs Hr) as Hpos.
    assert (Hl : Forall (fun y => y == 0) (map loss_of (delta (c :: cs)))).
    { simpl. constructor; [reflexivity|].
      rewrite map_map. apply Forall_map. eapply Forall_impl; [|exact Hpos].
      intros d Hd; cbv beta in Hd; simpl.
      destruct (Qlt_bool d 0) eqn:E; [apply Qlt_bool_iff in E; exfalso; Lqa.lra|reflexivity]. }
    assert (Hg : 0 < Qsum (firstn rsi_period (skipn (S (S j) - rsi_period)
                                    (map gain_of (delta (c :: cs)))))).
    { apply rsi_window_pos; [exact gain_of_nonneg | lia | simpl; lia |].
      rewrite delta_nth by (rewrite <- (length_diffs c cs); exact Hj). simpl.
      assert (Hd : 0 < nth j (diffs c cs) 0)
        by (apply (proj1 (Forall_forall (fun d => 0 < d) _) Hpos); apply nth_In; exact Hj).
      replace (Qlt_bool 0 (nth j (diffs c cs) 0)) with true
        by (symmetry; apply Qlt_bool_iff; exact Hd).
      exact Hd. }
    pose proof (rsi_window_zero loss_of (c :: cs) (S j) Hl) as Hl0.
    set (g := Qsum (firstn rsi_period (skipn (S (S j) - rsi_period) (map gain_of (delta (c :: cs)))))) in *.
    set (l := Qsum (firstn rsi_period (skipn (S (S j) - rsi_period) (map loss_of (delta (c :: cs)))))) in *.
    change (inject_Z (Z.of_nat rsi_period)) with 14. unfold f_div.
    assert (A3 : 0 < g / 14) by (apply Qlt_shift_div_l; [reflexivity|]; Lqa.lra).
    replace (Qeq_bool (l / 14) 0) with true
      by (symmetry; apply Qeq_bool_iff; rewrite Hl0; reflexivity).
    replace (Qeq_bool (g / 14) 0) with false
      by (symmetry; apply not_true_iff_false; rewrite Qeq_bool_iff; intro E; rewrite E in A3; discriminate A3).
    replace (Qlt_bool 0 (g / 14)) with true
      by (symmetry; apply Qlt_bool_iff; exact A3).
    reflexivity.
  - intro Hf. pose proof (falling_diffs c cs Hf) as Hneg.
    assert (Hg : Forall (fun y => y == 0) (map gain_of (delta (c :: cs)))).
    { simpl. constructor; [reflexivity|].
      rewrite map_map. apply Forall_map. eapply Forall_impl; [|exact Hneg].
      intros d Hd; cbv beta in Hd; simpl.
      destruct (Qlt_bool 0 d) eqn:E; [apply Qlt_bool_iff in E; exfalso; Lqa.lra|reflexivity]. }
    assert (Hl : 0 < Qsum (firstn rsi_period (skipn (S (S j) - rsi_period)
                                    (map loss_of (delta (c :: cs)))))).
    { apply rsi_window_pos; [exact loss_of_nonneg | lia | simpl; lia |].
      rewrite delta_nth by (rewrite <- (length_diffs c cs); exact Hj). simpl.
      assert (Hd : nth j (diffs c cs) 0 < 0)
        by (apply (proj1 (Forall_forall (fun d => d < 0) _) Hneg); apply nth_In; exact Hj).
      replace (Qlt_bool (nth j (diffs c cs) 0) 0) with true
        by (symmetry; apply Qlt_bool_iff; exact Hd).
      Lqa.lra. }
    pose proof (rsi_window_zero gain_of (c :: cs) (S j) Hg) as Hg0.
    set (g := Qsum (firstn rsi_period (skipn (S (S j) - rsi_period) (map gain_of (delta (c :: cs)))))) in *.
    set (l := Qsum (firstn rsi_period (skipn (S (S j) - rsi_period) (map loss_of (delta (c :: cs)))))) in *.
    change (inject_Z (Z.of_nat rsi_period)) with 14. unfold f_div.
    assert (A3 : 0 < l / 14) by (apply Qlt_shift_div_l; [reflexivity|]; Lqa.lra).
    replace (Qeq_bool (l / 14) 0) with false
      by (symmetry; apply not_true_iff_false; rewrite Qeq_bool_iff; intro E; rewrite E in A3; discriminate A3).
    eexists; split; [reflexivity|].
    assert (Hr : g / 14 / (l / 14) == 0) by (rewrite Hg0; unfold Qdiv; ring).
    rewrite Hr. reflexivity.
Qed.

Lemma rsi_monotone_extremes_witness :
  (13 <= 14)%nat /\ (14 < List.length (map (fun k => inject_Z (Z.of_nat k)) (seq 1 15)))%nat /\
  calculate_rsi (map (fun k => inject_Z (Z.of_nat k)) (seq 1 15)) 14 = Some 100.
Proof.
  assert (H1 : (13 <= 14)%nat) by lia.
  assert (H2 : (14 < List.length (map (fun k => inject_Z (Z.of_nat k)) (seq 1 15)))%nat)
    by (rewrite length_map, length_seq; lia).
  split; [exact H1|]. split; [exact H2|].
  apply (proj1 (rsi_monotone_extremes _ _ H1 H2)). reflexivity.
Defined.

Module BollingerFacts.
Import Bollinger.

Lemma inject_Z_S n : inject_Z (Z.of_nat (S n)) == inject_Z (Z.of_nat n) + 1.
Proof. rewrite Nat2Z.inj_succ, <- Z.add_1_r, inject_Z_plus. reflexivity. Qed.

Lemma Qsum_const_len (c : Q) xs :
  Forall (fun x => x == c) xs -> Rsi.Qsum xs == inject_Z (Z.of_nat (List.length xs)) * c.
Proof.
  unfold Rsi.Qsum. induction 1 as [|x xs Hx _ IH]; cbn [fold_right List.length];
  [reflexivity|].
  rewrite Hx, IH, inject_Z_S. ring.
Qed.

Lemma bb_window_length closes i :
  (19 <= i)%nat -> (i < List.length closes)%nat -> List.length (bb_window closes i) = bb_period.
Proof.
  intros H1 H2. unfold bb_window, bb_period. rewrite length_firstn, length_skipn. lia.
Qed.

End BollingerFacts.

Import Bollinger BollingerFacts.

(** The Bollinger columns are NaN on the first 19 rows; from row 19 on
    [bb_lower <= bb_middle <= bb_upper], the two bands lie at the same
    distance from the middle, and the middle is the 20-close mean. *)
Theorem bollinger_bands_ordered (closes : list Q) (i : nat) :
  ((i < 19)%nat -> calculate_bollinger_bands closes i = None) /\
  ((19 <= i)%nat ->
     exists bb_middle bb_upper bb_lower,
       calculate_bollinger_bands closes i = Some (bb_middle, bb_upper, bb_lower) /\
       (bb_lower <= bb_middle <= bb_upper)%R /\
       (bb_upper - bb_middle = bb_middle - bb_lower)%R /\
       bb_middle = Q2R (window_mean (bb_window closes i))).
Proof.
  unfold calculate_bollinger_bands. split.
  - intro H. replace (Nat.ltb (S i) bb_period) with true
      by (symmetry; apply Nat.ltb_lt; unfold bb_period; lia). reflexivity.
  - intro H. replace (Nat.ltb (S i) bb_period) with false
      by (symmetry; apply Nat.ltb_ge; unfold bb_period; lia).
    cbv zeta. do 3 eexists. split; [reflexivity|].
    pose proof (sqrt_pos (Q2R (window_ssd (bb_window closes i) /
                                inject_Z (Z.of_nat bb_period - 1)))) as Hs.
    unfold rolling_std, bb_std_mult. split; [split|split]; try reflexivity; Lra.lra.
Qed.

(** On a window of 20 equal closes [c] the standard deviation is 0 and the
    three Bollinger columns all equal [c]: the close is neither below the
    lower band nor above the upper one. *)
Theorem bollinger_flat_window (closes : list Q) (i : nat) (c : Q)
    (H19 : (19 <= i)%nat) (Hlen : (i < List.length closes)%nat)
    (Hflat : Forall (fun x => x == c) (bb_window closes i)) :
  calculate_bollinger_bands closes i = Some (Q2R c, Q2R c, Q2R c).
Proof.
  unfold calculate_bollinger_bands.
  replace (Nat.ltb (S i) bb_period) with false
    by (symmetry; apply Nat.ltb_ge; unfold bb_period; lia).
  cbv zeta.
  assert (Hm : window_mean (bb_window closes i) == c).
  { unfold window_mean. rewrite (Qsum_const_len c _ Hflat), bb_window_length by assumption.
    unfold bb_period. field. }
  assert (Hssd : window_ssd (bb_window closes i) == 0).
  { unfold window_ssd. apply RsiFacts2.Qsum_zero, Forall_map.
    eapply Forall_impl; [|exact Hflat]. intros x Hx; cbv beta in Hx |- *.
    rewrite Hx, Hm. ring. }
  assert (Hstd : rolling_std (bb_window closes i) = 0%R).
  { unfold rolling_std.
    rewrite (Qeq_eqR _ 0) by (rewrite Hssd; reflexivity).
    unfold Q2R; simpl. rewrite Rmult_0_l. apply sqrt_0. }
  rewrite Hstd, (Qeq_eqR _ _ Hm).
  f_equal. f_equal; [f_equal|]; Lra.lra.
Qed.

Lemma bollinger_flat_window_witness :
  (19 <= 19)%nat /\ (19 < List.length (repeat (100:Q) 20))%nat /\
  Forall (fun x => x == 100) (bb_window (repeat (100:Q) 20) 19) /\
  calculate_bollinger_bands (repeat (100:Q) 20) 19 = Some (Q2R 100, Q2R 100, Q2R 100).
Proof.
  assert (H1 : (19 <= 19)%nat) by lia.
  assert (H2 : (19 < List.length (repeat (100:Q) 20))%nat) by (rewrite repeat_length; lia).
  assert (H3 : Forall (fun x => x == 100) (bb_window (repeat (100:Q) 20) 19)).
  { apply Forall_forall. intros x Hx. vm_compute in Hx.
    repeat (destruct Hx as [<-|Hx]; [reflexivity|]). destruct Hx. }
  split; [exact H1|]. split; [exact H2|]. split; [exact H3|].
  exact (bollinger_flat_window _ _ _ H1 H2 H3).
Defined.

Module VolumeFacts.
Import Scorer Volume.

Lemma nth_calculate_volume_signal closes vols i :
  (i < List.length closes)%nat ->
  nth i (calculate_volume_signal closes vols) 0%Z = volume_signal_at closes vols i.
Proof.
  intro H. unfold calculate_volume_signal.
  rewrite (nth_indep _ 0%Z (volume_signal_at closes vols 0))
    by (rewrite length_map, length_seq; exact H).
  rewrite map_nth, seq_nth by exact H. reflexivity.
Qed.

Lemma high_volume_spec vols i :
  high_volume vols i = true ->
  exists m, volume_ma vols i = Some m /\ m * (3 # 2) < nth i vols 0.
Proof.
  unfold high_volume, f_gt, f_lt. destruct (volume_ma vols i) as [m|]; simpl; [|discriminate].
  intro H. apply Qlt_bool_iff in H. eauto.
Qed.

Lemma high_volume_early vols i : (i < 19)%nat -> high_volume vols i = false.
Proof.
  intro H. unfold high_volume, volume_ma, Rsi.rolling_mean.
  replace (Nat.ltb (S i) volume_period) with true
    by (symmetry; apply Nat.ltb_lt; unfold volume_period; lia).
  reflexivity.
Qed.

End VolumeFacts.

Module VotesFacts.
Import Scorer Votes.

Lemma score_step_snd_le c1 c2 w acc :
  0 <= w -> snd (score_step c1 c2 w acc) <= snd acc + (if c2 then w else 0).
Proof.
  intro Hw; destruct acc as [b s]; unfold score_step.
  destruct c1, c2; simpl; Lqa.lra.
Qed.

Lemma score_step_total c1 c2 w acc :
  0 <= w -> 0 <= fst acc -> 0 <= snd acc ->
  0 <= fst (score_step c1 c2 w acc) /\ 0 <= snd (score_step c1 c2 w acc) /\
  fst (score_step c1 c2 w acc) + snd (score_step c1 c2 w acc) <= fst acc + snd acc + w.
Proof.
  intros Hw Hb Hs; destruct acc as [b s]; unfold score_step; simpl in *.
  destruct c1, c2; simpl; repeat split; Lqa.lra.
Qed.

End VotesFacts.

Import Volume VolumeFacts.

(** The [volume_signal] cell is always -1, 0 or 1; it is 0 on the first 19
    rows (no 20-row volume mean yet); it is 1 only on a row whose volume
    exceeds 1.5 times its 20-row mean and whose close rose from the
    previous row, and -1 only on such a row whose close fell. *)
Theorem volume_signal_requires_move (closes vols : list Q) (i : nat)
    (Hi : (i < List.length closes)%nat) :
  let v := nth i (calculate_volume_signal closes vols) 0%Z in
  (v = 0 \/ v = 1 \/ v = -1)%Z /\
  ((i < 19)%nat -> v = 0%Z) /\
  (v = 1%Z -> (19 <= i)%nat /\
     exists m, volume_ma vols i = Some m /\ m * (3 # 2) < nth i vols 0 /\
               nth (i - 1) closes 0 < nth i closes 0) /\
  (v = (-1)%Z -> (19 <= i)%nat /\
     exists m, volume_ma vols i = Some m /\ m * (3 # 2) < nth i vols 0 /\
               nth i closes 0 < nth (i - 1) closes 0).
Proof.
  cbv zeta. rewrite (nth_calculate_volume_signal _ _ _ Hi).
  unfold volume_signal_at. cbv zeta.
  assert (Hearly : (i < 19)%nat -> high_volume vols i = false) by apply high_volume_early.
  destruct (high_volume vols i) eqn:Hh; cbn [andb].
  2: { cbv iota. split; [left; reflexivity|].
       split; [intros; reflexivity|]. split; intro H; discriminate H. }
  destruct (high_volume_spec _ _ Hh) as (m & Hm & Hv).
  assert (H19 : (19 <= i)%nat).
  { destruct (Nat.lt_ge_cases i 19) as [Hlt|Hge]; [|exact Hge].
    discriminate (Hearly Hlt). }
  destruct i as [|j]; [lia|]. cbn [shift1]. unfold Scorer.f_gt, Scorer.f_lt.
  replace (S j - 1)%nat with j by lia.
  destruct (Qlt_bool (nth j closes 0) (nth (S j) closes 0)) eqn:E1;
  destruct (Qlt_bool (nth (S j) closes 0) (nth j closes 0)) eqn:E2; cbv iota;
  (split; [auto|]); (split; [intros; lia|]);
  split; intro H; try discriminate H; (split; [exact H19|]);
  exists m; (split; [exact Hm|]); (split; [exact Hv|]); apply Qlt_bool_iff; assumption.
Qed.

Lemma volume_signal_requires_move_witness :
  (20 < List.length (repeat (100:Q) 20 ++ [105:Q]))%nat /\
  nth 20 (calculate_volume_signal (repeat (100:Q) 20 ++ [105:Q]) (repeat (1000:Q) 20 ++ [5000:Q])) 0%Z = 1%Z /\
  exists m, volume_ma (repeat (1000:Q) 20 ++ [5000:Q]) 20 = Some m /\
            m * (3 # 2) < nth 20 (repeat (1000:Q) 20 ++ [5000:Q]) 0.
Proof.
  assert (Hi : (20 < List.length (repeat (100:Q) 20 ++ [105:Q]))%nat)
    by (rewrite length_app, repeat_length; simpl; lia).
  assert (Hv : nth 20 (calculate_volume_signal (repeat (100:Q) 20 ++ [105:Q])
                         (repeat (1000:Q) 20 ++ [5000:Q])) 0%Z = 1%Z) by (vm_compute; reflexivity).
  split; [exact Hi|]. split; [exact Hv|].
  destruct (proj2 (proj1 (proj2 (proj2 (volume_signal_requires_move _ (repeat (1000:Q) 20 ++ [5000:Q]) _ Hi))) Hv))
    as (m & Hm & Hgt & _).
  exists m. split; assumption.
Defined.

Import Scorer Votes VotesFacts ScorerFacts.

(** Each scoring block adds its weight to at most one side, so both scores
    are non-negative and [buy_score + sell_score <= 10]. *)
Theorem scores_bounded (latest prev : row) :
  0 <= fst (signal_scores latest prev) /\ 0 <= snd (signal_scores latest prev) /\
  fst (signal_scores latest prev) + snd (signal_scores latest prev) <= 10.
Proof.
  unfold signal_scores. cbv zeta.
  match goal with
  | |- context [score_step ?c1 ?c2 1 (score_step ?d1 ?d2 (3 # 2)
                 (score_step ?e1 ?e2 2 (score_step ?f1 ?f2 (3 # 2)
                 (score_step ?g1 ?g2 2 (score_step ?h1 ?h2 2 (0, 0))))))] =>
      destruct (score_step_total h1 h2 2 (0, 0)) as (A1 & B1 & C1);
        try (unfold Qle; simpl; lia);
      destruct (score_step_total g1 g2 2 _ ltac:(unfold Qle; simpl; lia) A1 B1) as (A2 & B2 & C2);
      destruct (score_step_total f1 f2 (3 # 2) _ ltac:(unfold Qle; simpl; lia) A2 B2) as (A3 & B3 & C3);
      destruct (score_step_total e1 e2 2 _ ltac:(unfold Qle; simpl; lia) A3 B3) as (A4 & B4 & C4);
      destruct (score_step_total d1 d2 (3 # 2) _ ltac:(unfold Qle; simpl; lia) A4 B4) as (A5 & B5 & C5);
      destruct (score_step_total c1 c2 1 _ ltac:(unfold Qle; simpl; lia) A5 B5) as (A6 & B6 & C6)
  end.
  cbn [fst snd] in C1. split; [exact A6|]. split; [exact B6|]. Lqa.lra.
Qed.

Lemma count_true_6 (b1 b2 b3 b4 b5 b6 : bool) (w1 w2 w3 w4 w5 w6 : Q) :
  w1 <= 2 -> w2 <= 2 -> w3 <= 2 -> w4 <= 2 -> w5 <= 2 -> w6 <= 2 ->
  0 <= w1 -> 0 <= w2 -> 0 <= w3 -> 0 <= w4 -> 0 <= w5 -> 0 <= w6 ->
  5 <= (if b1 then w1 else 0) + (if b2 then w2 else 0) + (if b3 then w3 else 0) +
       (if b4 then w4 else 0) + (if b5 then w5 else 0) + (if b6 then w6 else 0) ->
  (3 <= count_true [b1; b2; b3; b4; b5; b6])%nat.
Proof.
  intros. unfold count_true.
  destruct b1, b2, b3, b4, b5, b6; cbn [filter List.length] in *; try lia;
  exfalso; Lqa.lra.
Qed.

(** No one or two indicators can trigger a trade: a BUY needs at least
    three of the six buy tests to hold and a SELL at least three of the six
    sell tests (the largest weight is 2 and the threshold is 5). *)
Theorem signal_needs_three_votes (latest prev : row) :
  (score_rows latest prev = BUY -> (3 <= count_true (buy_conditions latest prev))%nat) /\
  (score_rows latest prev = SELL -> (3 <= count_true (sell_conditions latest prev))%nat).
Proof.
  unfold score_rows.
  pose proof (decide_signal_spec (fst (signal_scores latest prev))
                                 (snd (signal_scores latest prev))) as (HB & HS & _).
  rewrite <- surjective_pairing in HB, HS.
  split.
  - intro H. destruct (proj1 HB H) as [H5 _].
    unfold signal_scores in H5. cbv zeta in H5. rewrite !score_step_fst in H5.
    cbn [fst] in H5. unfold buy_conditions.
    apply (count_true_6 _ _ _ _ _ _ 2 2 (3 # 2) 2 (3 # 2) 1);
      try (unfold Qle; simpl; lia). Lqa.lra.
  - intro H. destruct (proj1 HS H) as [H5 _].
    unfold signal_scores in H5. cbv zeta in H5.
    set (w0 := (0, 0) : Q * Q) in H5.
    match type of H5 with
    | context [score_step ?c1 ?c2 1 (score_step ?d1 ?d2 (3 # 2)
                 (score_step ?e1 ?e2 2 (score_step ?f1 ?f2 (3 # 2)
                 (score_step ?g1 ?g2 2 (score_step ?h1 ?h2 2 w0)))))] =>
        pose proof (score_step_snd_le h1 h2 2 w0 ltac:(unfold Qle; simpl; lia)) as S1;
        pose proof (score_step_snd_le g1 g2 2 (score_step h1 h2 2 w0) ltac:(unfold Qle; simpl; lia)) as S2;
        pose proof (score_step_snd_le f1 f2 (3 # 2) (score_step g1 g2 2 (score_step h1 h2 2 w0)) ltac:(unfold Qle; simpl; lia)) as S3;
        pose proof (score_step_snd_le e1 e2 2 (score_step f1 f2 (3 # 2) (score_step g1 g2 2 (score_step h1 h2 2 w0))) ltac:(unfold Qle; simpl; lia)) as S4;
        pose proof (score_step_snd_le d1 d2 (3 # 2) (score_step e1 e2 2 (score_step f1 f2 (3 # 2) (score_step g1 g2 2 (score_step h1 h2 2 w0)))) ltac:(unfold Qle; simpl; lia)) as S5;
        pose proof (score_step_snd_le c1 c2 1 (score_step d1 d2 (3 # 2) (score_step e1 e2 2 (score_step f1 f2 (3 # 2) (score_step g1 g2 2 (score_step h1 h2 2 w0))))) ltac:(unfold Qle; simpl; lia)) as S6
    end.
    assert (Hw0 : snd w0 == 0) by reflexivity.
    unfold sell_conditions.
    apply (count_true_6 _ _ _ _ _ _ 2 2 (3 # 2) 2 (3 # 2) 1);
      try (unfold Qle; simpl; lia). Lqa.lra.
Qed.

Module BacktestFacts2.
Import Backtest BacktestAux BacktestFacts BacktestInv.

Lemma py_int_floor q :
  0 <= q -> inject_Z (py_int q) <= q /\ q < inject_Z (py_int q) + 1.
Proof.
  destruct q as [n d]. unfold py_int, Qle, Qlt; cbn [Qnum Qden]. intro H.
  assert (Hn : (0 <= n)%Z) by (unfold Qle in H; simpl in H; lia).
  rewrite Z.quot_div_nonneg by lia.
  pose proof (Z.mul_div_le n (Zpos d) ltac:(lia)) as H1.
  pose proof (Z.mod_pos_bound n (Zpos d) ltac:(lia)) as H2.
  pose proof (Z.div_mod n (Zpos d) ltac:(lia)) as H3.
  unfold inject_Z, Qplus. cbn [Qnum Qden]. split; lia.
Qed.

Lemma run_loop_preserves (I : sim_state -> Prop) (Pb : bar -> Prop) cfg gen bs idx st st' :
  (forall b sig s s', Pb b -> I s -> step cfg b sig s = Some s' -> I s') ->
  (forall i, In i idx -> Pb (nth i bs default_bar)) ->
  I st -> run_loop cfg gen bs idx st = Some st' -> I st'.
Proof.
  intros Hstep Hbars. revert st. induction idx as [|i idx IH]; intros st Hi H; simpl in H.
  - injection H as <-. exact Hi.
  - destruct (step _ _ _ st) as [st1|] eqn:E; [|discriminate].
    apply (IH (fun j Hj => Hbars j (or_intror Hj)) st1); [|exact H].
    exact (Hstep _ _ _ _ (Hbars i (or_introl eq_refl)) Hi E).
Qed.

Lemma seq_in_bounds (bs : list bar) i :
  In i (seq 100 (List.length bs - 100)) -> (i < List.length bs)%nat.
Proof. intro H. apply in_seq in H. lia. Qed.

Lemma run_backtest_some cfg gen bars ic rep :
  run_backtest cfg gen bars ic = Returned (Some rep) ->
  exists bs st,
    bars = Some bs /\ (100 <= List.length bs)%nat /\
    run_loop cfg gen bs (seq 100 (List.length bs - 100)) (init_state ic) = Some st /\
    calculate_statistics (trades (close_open_position bs st))
      (equity_curve (close_open_position bs st)) ic
      (capital (close_open_position bs st)) = Returned (Some rep).
Proof.
  unfold run_backtest. destruct bars as [bs|]; [|discriminate].
  destruct (Nat.ltb (List.length bs) 100) eqn:Hlt; [discriminate|].
  apply Nat.ltb_ge in Hlt.
  destruct (run_loop _ _ _ _ _) as [st|] eqn:Hl; [|discriminate].
  intro H. exists bs, st. auto.
Qed.

Lemma calculate_statistics_curve ts eq ic fc rep :
  calculate_statistics ts eq ic fc = Returned (Some rep) ->
  report_equity_curve rep = eq /\ final_capital rep = fc /\ report_trades rep = ts.
Proof.
  unfold calculate_statistics. destruct ts; [discriminate|].
  destruct eq; [discriminate|]. intro H; injection H as <-. auto.
Qed.

(** After the loop of [run_backtest], [calculate_statistics] does not
    raise: no index means no trade, and every index adds a snapshot. *)
Lemma statistics_after_loop cfg gen bs ic st :
  run_loop cfg gen bs (seq 100 (List.length bs - 100)) (init_state ic) = Some st ->
  calculate_statistics (trades (close_open_position bs st))
    (equity_curve (close_open_position bs st)) ic
    (capital (close_open_position bs st)) <> Raised.
Proof.
  intro Hl. pose proof (run_loop_snapshots _ _ _ _ _ _ Hl) as Hsnap.
  destruct (List.length bs - 100)%nat as [|n].
  - cbn in Hl. injection Hl as <-. discriminate.
  - assert (Hcurve : equity_curve (close_open_position bs st) = equity_curve st)
      by (unfold close_open_position; destruct (position_of st); reflexivity).
    rewrite Hcurve. unfold calculate_statistics.
    destruct (trades (close_open_position bs st)); [discriminate|].
    destruct (equity_curve st); [discriminate Hsnap|discriminate].
Qed.

Ltac ledger_cases H :=
  unfold ledger_step in H; cbv zeta in H;
  match type of H with
  | context [position_of ?s] => destruct s as [?c [?p|] ?ts ?eq]
  end;
  match type of H with
  | context [match ?sg with Scorer.BUY => _ | _ => _ end] => destruct sg
  | _ => idtac
  end;
  cbn [position_of capital trades equity_curve Scorer.signal_eqb] in *;
  case_ifs_in H; try discriminate H; injection H as <-;
  cbn [position_of capital trades equity_curve shares entry_price pnl pnl_pct exit_price
       trade_entry_price trade_shares reason] in *.

Lemma ledger_step_consistent cfg b sig st st1 :
  state_consistent cfg st -> ledger_step cfg b sig st = Some st1 -> state_consistent cfg st1.
Proof.
  intros [Hp Ht] H. ledger_cases H.
  all: unfold state_consistent; cbn [position_of trades] in *.
  all: try (split; assumption).
  all: split; [intros q Hq; first [discriminate Hq | injection Hq as <-; cbn [shares];
                                    first [eauto | apply Z.ltb_lt; assumption]] |].
  all: try assumption.
  all: try (apply Z.ltb_lt; assumption).
  all: apply Forall_app; split; [assumption|]; constructor; [|constructor].
  all: unfold trade_consistent; cbn [trade_shares pnl_pct exit_price trade_entry_price reason].
  all: split; [apply (Hp _ eq_refl)|]; split; [reflexivity|].
  all: first [ left; reflexivity
             | right; left; split; [reflexivity | apply Qle_bool_iff; assumption]
             | right; right; left; split; [reflexivity | apply Qle_bool_iff; assumption] ].
Qed.

Lemma step_consistent cfg b sig st st' :
  state_consistent cfg st -> step cfg b sig st = Some st' -> state_consistent cfg st'.
Proof.
  intros Hi Hs. destruct (step_inv _ _ _ _ _ Hs) as (st1 & Hl & ->).
  exact (ledger_step_consistent _ _ _ _ _ Hi Hl).
Qed.

Lemma close_open_position_consistent cfg bs st :
  state_consistent cfg st -> Forall (trade_consistent cfg) (trades (close_open_position bs st)).
Proof.
  intros [Hp Ht]. unfold close_open_position.
  destruct (position_of st) as [p|] eqn:E; cbn [trades]; [|exact Ht].
  apply Forall_app; split; [exact Ht|]. constructor; [|constructor].
  unfold trade_consistent; cbn [trade_shares pnl_pct exit_price trade_entry_price reason].
  split; [exact (Hp _ eq_refl)|]. split; [reflexivity|]. right; right; right; reflexivity.
Qed.

Lemma ledger_step_entries cfg b sig st st1 :
  0 < close b -> entries_positive st -> ledger_step cfg b sig st = Some st1 ->
  entries_positive st1.
Proof.
  intros Hb [Hp Ht] H. ledger_cases H.
  all: unfold entries_positive; cbn [position_of trades] in *.
  all: try (split; assumption).
  all: split; [intros q Hq; first [discriminate Hq | injection Hq as <-; cbn [entry_price]; first [exact Hb | eauto]] |].
  all: try assumption.
  all: apply Forall_app; split; [assumption|]; constructor; [|constructor].
  all: cbn [trade_entry_price]; exact (Hp _ eq_refl).
Qed.

Lemma step_entries cfg b sig st st' :
  0 < close b -> entries_positive st -> step cfg b sig st = Some st' -> entries_positive st'.
Proof.
  intros Hb Hi Hs. destruct (step_inv _ _ _ _ _ Hs) as (st1 & Hl & ->).
  exact (ledger_step_entries _ _ _ _ _ Hb Hi Hl).
Qed.

Lemma close_open_position_entries bs st :
  entries_positive st ->
  Forall (fun t => 0 < trade_entry_price t) (trades (close_open_position bs st)).
Proof.
  intros [Hp Ht]. unfold close_open_position.
  destruct (position_of st) as [p|] eqn:E; cbn [trades]; [|exact Ht].
  apply Forall_app; split; [exact Ht|]. constructor; [|constructor].
  exact (Hp _ eq_refl).
Qed.

Lemma inject_Z_pos z : (0 < z)%Z -> 0 < inject_Z z.
Proof. intro H. unfold Qlt; simpl. lia. Qed.

Lemma ledger_step_funds cfg b sig st st1 :
  0 <= POSITION_SIZE_PCT cfg <= 1 -> 0 < close b ->
  funds_nonneg st -> ledger_step cfg b sig st = Some st1 ->
  0 <= capital st1 /\ (forall p, position_of st1 = Some p -> (0 < shares p)%Z) /\
  equity_curve st1 = equity_curve st.
Proof.
  intros [Hpct1 Hpct2] Hb [Hc [Hp He]] H.
  pose proof (ledger_step_equity _ _ _ _ _ H) as Heq.
  ledger_cases H.
  all: split; [|split; [intros q Hq; first [discriminate Hq | injection Hq as <-; cbn [shares];
        first [apply Z.ltb_lt; assumption | eauto]] | exact Heq]].
  all: try assumption.
  all: try (pose proof (inject_Z_pos _ (Hp _ eq_refl)); Lqa.nra).
  (* the BUY branch *)
  match goal with
  | E : Z.ltb 0 (py_int ?q) = true |- _ =>
      assert (Hq : 0 <= q) by (apply Qle_shift_div_l; [exact Hb|]; Lqa.nra);
      destruct (py_int_floor q Hq) as [Hfl _];
      assert (Hn : inject_Z (py_int q) * close b <= c * POSITION_SIZE_PCT cfg)
  end.
  { apply (Qmult_le_r _ _ (/ close b)); [apply Qinv_lt_0_compat, Hb|].
    rewrite <- Qmult_assoc, Qmult_inv_r by (intro Z0; rewrite Z0 in Hb; discriminate Hb).
    rewrite Qmult_1_r. exact Hfl. }
  Lqa.nra.
Qed.

Lemma step_funds cfg b sig st st' :
  0 <= POSITION_SIZE_PCT cfg <= 1 -> 0 < close b ->
  funds_nonneg st -> step cfg b sig st = Some st' -> funds_nonneg st'.
Proof.
  intros Hpct Hb Hi Hs. destruct (step_inv _ _ _ _ _ Hs) as (st1 & Hl & ->).
  destruct (ledger_step_funds _ _ _ _ _ Hpct Hb Hi Hl) as (Hc & Hp & He).
  destruct Hi as (_ & _ & He0).
  unfold funds_nonneg, snapshot. cbn [capital position_of equity_curve].
  split; [exact Hc|]. split; [exact Hp|].
  rewrite He. apply Forall_app; split; [exact He0|]. constructor; [|constructor].
  cbn [snd]. destruct (position_of st1) as [p|] eqn:E; [|exact Hc].
  pose proof (inject_Z_pos _ (Hp _ eq_refl)). Lqa.nra.
Qed.

Lemma step_some cfg b sig st :
  ~ close b == 0 -> exists st', step cfg b sig st = Some st'.
Proof.
  intro Hb. rewrite step_split. unfold ledger_step. cbv zeta.
  destruct st as [c [p|] ts eq], sig; cbn [position_of];
  try (replace (Qeq_bool (close b) 0) with false
         by (symmetry; apply not_true_iff_false; rewrite Qeq_bool_iff; exact Hb));
  case_ifs; eexists; reflexivity.
Qed.

Lemma run_loop_some cfg gen bs idx st :
  (forall i, In i idx -> ~ close (nth i bs default_bar) == 0) ->
  exists st', run_loop cfg gen bs idx st = Some st'.
Proof.
  revert st. induction idx as [|i idx IH]; intros st Hb; cbn [run_loop]; [eauto|]. cbv zeta.
  destruct (step_some cfg (nth i bs default_bar)
              (gen (tail_n 100 (firstn (S i) bs))) st (Hb i (or_introl eq_refl)))
    as (st1 & E).
  rewrite E. apply IH. intros j Hj. exact (Hb j (or_intror Hj)).
Qed.

End BacktestFacts2.

Import Backtest BacktestAux BacktestInv BacktestFacts BacktestFacts2.

Lemma last_in {A} (l : list A) d : l <> [] -> In (last l d) l.
Proof.
  induction l as [|x l IH]; intro H; [congruence|].
  destruct l as [|y l]; [left; reflexivity|].
  right. apply IH. discriminate.
Qed.

Lemma run_bars_in (bs : list bar) (P : bar -> Prop) :
  Forall P bs -> forall i, In i (seq 100 (List.length bs - 100)) -> P (nth i bs default_bar).
Proof.
  intros H i Hi. apply (proj1 (Forall_forall P bs) H). apply nth_In. exact (seq_in_bounds bs i Hi).
Qed.

(** Every trade of a returned report is consistent with the exit rule that
    closed it: positive share count, [pnl_pct] computed from its entry and
    exit prices, and a stop-loss (take-profit) exit only at or beyond the
    configured threshold. *)
Theorem backtest_trades_consistent cfg gen bars ic rep :
  run_backtest cfg gen bars ic = Returned (Some rep) ->
  Forall (trade_consistent cfg) (report_trades rep).
Proof.
  intro H. destruct (run_backtest_some _ _ _ _ _ H) as (bs & st & _ & _ & Hl & Hs).
  destruct (calculate_statistics_curve _ _ _ _ _ Hs) as (_ & _ & ->).
  apply close_open_position_consistent.
  apply (run_loop_preserves (state_consistent cfg) (fun _ => True) cfg gen bs
           (seq 100 (List.length bs - 100)) (init_state ic) st); auto.
  - intros b sig s s' _ Hi Hst. exact (step_consistent _ _ _ _ _ Hi Hst).
  - split; [discriminate|constructor].
Qed.

Lemma backtest_trades_consistent_witness :
  exists rep,
    run_backtest default_config always_buy (Some (flat_bars 101)) 10000 = Returned (Some rep) /\
    Forall (trade_consistent default_config) (report_trades rep).
Proof.
  destruct (run_backtest default_config always_buy (Some (flat_bars 101)) 10000)
    as [[rep|]|] eqn:E; [| vm_compute in E; discriminate | vm_compute in E; discriminate].
  exists rep. split; [reflexivity|].
  exact (backtest_trades_consistent _ _ _ _ rep E).
Defined.

(** With positive closes and positive thresholds, a stop-loss exit always
    closes below the entry price at a loss, and a take-profit exit above it
    at a gain. *)
Theorem backtest_exit_signs cfg gen bs ic rep :
  0 < STOP_LOSS_PCT cfg -> 0 < TAKE_PROFIT_PCT cfg ->
  Forall (fun b => 0 < close b) bs ->
  run_backtest cfg gen (Some bs) ic = Returned (Some rep) ->
  Forall (fun t =>
            (reason t = "Stop-loss"%string ->
               exit_price t < trade_entry_price t /\ pnl t < 0) /\
            (reason t = "Take-profit"%string ->
               trade_entry_price t < exit_price t /\ 0 < pnl t))
         (report_trades rep).
Proof.
  intros Hsl Htp Hpos H.
  destruct (run_backtest_some _ _ _ _ _ H) as (bs' & st & E & _ & Hl & Hs).
  injection E as <-.
  destruct (calculate_statistics_curve _ _ _ _ _ Hs) as (_ & _ & ->).
  assert (Hc : state_consistent cfg st).
  { apply (run_loop_preserves (state_consistent cfg) (fun _ => True) cfg gen bs
             (seq 100 (List.length bs - 100)) (init_state ic) st); auto.
    - intros b sig s s' _ Hi Hst. exact (step_consistent _ _ _ _ _ Hi Hst).
    - split; [discriminate|constructor]. }
  assert (He : entries_positive st).
  { apply (run_loop_preserves entries_positive (fun b => 0 < close b) cfg gen bs
             (seq 100 (List.length bs - 100)) (init_state ic) st); auto.
    - intros b sig s s' Hb Hi Hst. exact (step_entries _ _ _ _ _ Hb Hi Hst).
    - exact (run_bars_in bs _ Hpos).
    - split; [discriminate|constructor]. }
  assert (Hq : cash_invariant ic (init_state ic)).
  { split; [|constructor]. unfold open_cost, sum_pnl; simpl. ring. }
  destruct (close_open_position_cash bs _ _ (run_loop_cash _ _ _ _ _ _ _ Hq Hl)) as [_ Hf].
  pose proof (close_open_position_consistent _ bs _ Hc) as Hcons.
  pose proof (close_open_position_entries bs _ He) as Hent.
  clear - Hsl Htp Hf Hcons Hent.
  induction (trades (close_open_position bs st)) as [|t ts IH]; [constructor|].
  inversion Hf as [|? ? Hf1 Hf2]; inversion Hcons as [|? ? Hc1 Hc2];
    inversion Hent as [|? ? He1 He2]; subst.
  constructor; [|exact (IH Hf2 Hc2 He2)].
  destruct Hc1 as (Hsh & Hpct & Hr).
  pose proof (inject_Z_pos _ Hsh) as Hs.
  assert (Hd : forall x, x / trade_entry_price t * 100 < 0 -> x < 0).
  { intros x Hx. apply Qnot_le_lt; intro Hx0.
    assert (0 <= x / trade_entry_price t) by (apply Qle_shift_div_l; [exact He1|]; Lqa.lra).
    Lqa.lra. }
  assert (Hd' : forall x, 0 < x / trade_entry_price t * 100 -> 0 < x).
  { intros x Hx. apply Qnot_le_lt; intro Hx0.
    assert (x / trade_entry_price t <= 0) by (apply Qle_shift_div_r; [exact He1|]; Lqa.lra).
    Lqa.lra. }
  split; intro R.
  - destruct Hr as [R'|[[_ Hl]|[[R' _]|R']]]; try (rewrite R in R'; discriminate R').
    rewrite Hpct in Hl. assert (Hneg := Hd (exit_price t - trade_entry_price t) ltac:(Lqa.lra)).
    rewrite Hf1. split; [Lqa.lra|]. Lqa.nra.
  - destruct Hr as [R'|[[R' _]|[[_ Hl]|R']]]; try (rewrite R in R'; discriminate R').
    rewrite Hpct in Hl. assert (Hp := Hd' (exit_price t - trade_entry_price t) ltac:(Lqa.lra)).
    rewrite Hf1. split; [Lqa.lra|]. Lqa.nra.
Qed.

Lemma flat_bars_positive n : Forall (fun b => 0 < close b) (flat_bars n).
Proof.
  unfold flat_bars. apply Forall_forall. intros b Hb. apply in_map_iff in Hb.
  destruct Hb as (k & <- & _). reflexivity.
Qed.

Lemma backtest_exit_signs_witness :
  exists rep,
    run_backtest default_config always_buy (Some (flat_bars 101)) 10000 = Returned (Some rep) /\
    Forall (fun t =>
            (reason t = "Stop-loss"%string ->
               exit_price t < trade_entry_price t /\ pnl t < 0) /\
            (reason t = "Take-profit"%string ->
               trade_entry_price t < exit_price t /\ 0 < pnl t))
         (report_trades rep).
Proof.
  destruct (run_backtest default_config always_buy (Some (flat_bars 101)) 10000)
    as [[rep|]|] eqn:E; [| vm_compute in E; discriminate | vm_compute in E; discriminate].
  exists rep. split; [reflexivity|].
  exact (backtest_exit_signs default_config always_buy (flat_bars 101) 10000 rep ltac:(reflexivity) ltac:(reflexivity)
           (flat_bars_positive 101) E).
Defined.

(** [run_backtest] raises only on a zero close: when no bar closes at 0
    it returns (a report or None). *)
Theorem backtest_no_raise_on_nonzero_closes cfg gen bs ic :
  Forall (fun b => ~ close b == 0) bs ->
  run_backtest cfg gen (Some bs) ic <> Raised.
Proof.
  intro Hb. unfold run_backtest.
  destruct (Nat.ltb (List.length bs) 100); [discriminate|].
  destruct (run_loop_some cfg gen bs (seq 100 (List.length bs - 100)) (init_state ic)
              (run_bars_in bs _ Hb)) as (st & Hst).
  rewrite Hst. cbv zeta. exact (statistics_after_loop cfg gen bs ic st Hst).
Qed.

Lemma backtest_no_raise_on_nonzero_closes_witness :
  Forall (fun b => ~ close b == 0) (flat_bars 101) /\
  run_backtest default_config always_buy (Some (flat_bars 101)) 10000 <> Raised.
Proof.
  assert (H : Forall (fun b => ~ close b == 0) (flat_bars 101)).
  { refine (Forall_impl _ _ (flat_bars_positive 101)).
    intros b Hb E. rewrite E in Hb. discriminate Hb. }
  split; [exact H|]. exact (backtest_no_raise_on_nonzero_closes _ _ _ _ H).
Defined.

(** With a non-negative starting capital, a position size of at most 100%
    and positive closes, the final capital and every equity snapshot of a
    report are non-negative: the simulation never buys on credit. *)
Theorem backtest_funds_nonneg cfg gen bs ic rep :
  0 <= ic -> 0 <= POSITION_SIZE_PCT cfg <= 1 ->
  Forall (fun b => 0 < close b) bs ->
  run_backtest cfg gen (Some bs) ic = Returned (Some rep) ->
  0 <= final_capital rep /\ Forall (fun e => 0 <= snd e) (report_equity_curve rep).
Proof.
  intros Hic Hpct Hpos H.
  destruct (run_backtest_some _ _ _ _ _ H) as (bs' & st & E & Hlen & Hl & Hs).
  injection E as <-.
  destruct (calculate_statistics_curve _ _ _ _ _ Hs) as (-> & -> & _).
  assert (Hf : funds_nonneg st).
  { apply (run_loop_preserves funds_nonneg (fun b => 0 < close b) cfg gen bs
             (seq 100 (List.length bs - 100)) (init_state ic) st); auto.
    - intros b sig s s' Hb Hi Hst. exact (step_funds _ _ _ _ _ Hpct Hb Hi Hst).
    - exact (run_bars_in bs _ Hpos).
    - split; [exact Hic|]. split; [discriminate|constructor]. }
  destruct Hf as (Hc & Hp & Heq).
  unfold close_open_position. destruct (position_of st) as [p|] eqn:Ep; cbn [capital equity_curve].
  - split; [|exact Heq].
    assert (Hlast : 0 < close (last bs default_bar)).
    { apply (proj1 (Forall_forall _ bs) Hpos). apply last_in.
      intro Z0; rewrite Z0 in Hlen; simpl in Hlen; lia. }
    pose proof (inject_Z_pos _ (Hp _ eq_refl)). Lqa.nra.
  - split; [exact Hc|exact Heq].
Qed.

Lemma backtest_funds_nonneg_witness :
  exists rep,
    run_backtest default_config always_buy (Some (flat_bars 101)) 10000 = Returned (Some rep) /\
    0 <= final_capital rep /\ Forall (fun e => 0 <= snd e) (report_equity_curve rep).
Proof.
  destruct (run_backtest default_config always_buy (Some (flat_bars 101)) 10000)
    as [[rep|]|] eqn:E; [| vm_compute in E; discriminate | vm_compute in E; discriminate].
  exists rep. split; [reflexivity|].
  exact (backtest_funds_nonneg default_config always_buy (flat_bars 101) 10000 rep ltac:(discriminate)
           ltac:(split; discriminate) (flat_bars_positive 101) E).
Defined.

(** A BUY with no open position buys the largest whole number of shares
    whose cost stays within [capital * POSITION_SIZE_PCT], at the bar's
    close and date, and pays for them from the capital; when not even one
    share is affordable nothing changes. *)
Theorem backtest_buy_sizing cfg b st st' :
  position_of st = None -> 0 < close b -> 0 <= capital st * POSITION_SIZE_PCT cfg ->
  step cfg b Scorer.BUY st = Some st' ->
  match position_of st' with
  | Some p =>
      entry_price p = close b /\ entry_date p = timestamp b /\
      inject_Z (shares p) * close b <= capital st * POSITION_SIZE_PCT cfg /\
      capital st * POSITION_SIZE_PCT cfg < (inject_Z (shares p) + 1) * close b /\
      capital st' == capital st - inject_Z (shares p) * close b
  | None => capital st * POSITION_SIZE_PCT cfg < close b /\ capital st' = capital st
  end.
Proof.
  intros Hnone Hb Hcp Hs. destruct (step_inv _ _ _ _ _ Hs) as (st1 & Hl & ->).
  unfold ledger_step in Hl. rewrite Hnone in Hl.
  assert (Hne : Qeq_bool (close b) 0 = false).
  { apply not_true_iff_false. rewrite Qeq_bool_iff. intro E; rewrite E in Hb; discriminate Hb. }
  rewrite Hne in Hl. cbv zeta in Hl.
  set (q := capital st * POSITION_SIZE_PCT cfg / close b) in Hl.
  assert (Hq : 0 <= q) by (apply Qle_shift_div_l; [exact Hb|]; Lqa.lra).
  destruct (py_int_floor q Hq) as [Hfl Hfu].
  assert (Hmul : forall x, x * close b <= capital st * POSITION_SIZE_PCT cfg <-> x <= q).
  { intro x. unfold q. split; intro H.
    - apply Qle_shift_div_l; [exact Hb|exact H].
    - apply (Qmult_le_r _ _ (close b) Hb) in H.
      setoid_replace (capital st * POSITION_SIZE_PCT cfg / close b * close b)
        with (capital st * POSITION_SIZE_PCT cfg) in H
        by (field; intro E; rewrite E in Hb; discriminate Hb).
      exact H. }
  assert (Hmul' : forall x, capital st * POSITION_SIZE_PCT cfg < x * close b <-> q < x).
  { intro x. unfold q. split; intro H.
    - apply Qlt_shift_div_r; [exact Hb|exact H].
    - apply (Qmult_lt_r _ _ (close b) Hb) in H.
      setoid_replace (capital st * POSITION_SIZE_PCT cfg / close b * close b)
        with (capital st * POSITION_SIZE_PCT cfg) in H
        by (field; intro E; rewrite E in Hb; discriminate Hb).
      exact H. }
  destruct (Z.ltb 0 (py_int q)) eqn:Hn; injection Hl as <-; unfold snapshot; cbn [position_of capital].
  - cbn [entry_price entry_date shares]. split; [reflexivity|]. split; [reflexivity|].
    split; [apply Hmul; exact Hfl|]. split; [apply Hmul'; exact Hfu|]. reflexivity.
  - rewrite Hnone. split; [|reflexivity].
    apply Z.ltb_ge in Hn.
    assert (Hz : inject_Z (py_int q) <= 0) by (unfold Qle; simpl; lia).
    assert (H1 := proj2 (Hmul' 1) ltac:(Lqa.lra)). rewrite Qmult_1_l in H1. exact H1.
Qed.

Lemma backtest_buy_sizing_witness :
  exists st',
    step default_config (mk_bar 0 100 100 100 100 1000) Scorer.BUY (init_state 10000) = Some st' /\
    match position_of st' with
    | Some p =>
        entry_price p = 100 /\ entry_date p = 0%Z /\
        inject_Z (shares p) * 100 <= 10000 * (1 # 10) /\
        10000 * (1 # 10) < (inject_Z (shares p) + 1) * 100 /\
        capital st' == 10000 - inject_Z (shares p) * 100
    | None => 10000 * (1 # 10) < 100 /\ capital st' = 10000
    end.
Proof.
  destruct (step default_config (mk_bar 0 100 100 100 100 1000) Scorer.BUY (init_state 10000))
    as [st'|] eqn:E; [|vm_compute in E; discriminate].
  exists st'. split; [reflexivity|].
  exact (backtest_buy_sizing default_config (mk_bar 0 100 100 100 100 1000) (init_state 10000) st'
           eq_refl ltac:(reflexivity) ltac:(discriminate) E).
Defined.

(** Every equity snapshot marks the portfolio to market: the value recorded
    for a bar is the starting capital, plus the realised P&L of all trades
    closed so far, plus the unrealised P&L of the open position at that
    bar's close. *)
Theorem backtest_equity_marks_to_market cfg gen bs idx ic st b sig st' :
  run_loop cfg gen bs idx (init_state ic) = Some st ->
  step cfg b sig st = Some st' ->
  exists e, equity_curve st' = equity_curve st ++ [(timestamp b, e)] /\
            e == ic + sum_pnl (trades st') + unrealized st' (close b).
Proof.
  intros Hl Hs.
  assert (Hq : cash_invariant ic (init_state ic)).
  { split; [|constructor]. unfold open_cost, sum_pnl; simpl. ring. }
  pose proof (run_loop_cash _ _ _ _ _ _ _ Hq Hl) as Hi.
  destruct (step_inv _ _ _ _ _ Hs) as (st1 & Hl1 & ->).
  destruct (ledger_step_cash _ _ _ _ _ _ Hi Hl1) as [Hc _].
  rewrite <- (ledger_step_equity _ _ _ _ _ Hl1).
  unfold snapshot, unrealized, open_cost in *; cbn [equity_curve trades position_of capital].
  eexists; split; [reflexivity|].
  destruct (position_of st1); Lqa.lra.
Qed.

Lemma backtest_equity_marks_to_market_witness :
  exists st st',
    run_loop default_config always_buy (flat_bars 101) (seq 100 1) (init_state 10000) = Some st /\
    step default_config (mk_bar 101 104 104 104 104 1000) Scorer.HOLD st = Some st' /\
    exists e, equity_curve st' = equity_curve st ++ [(101%Z, e)] /\
              e == 10000 + sum_pnl (trades st') + unrealized st' 104.
Proof.
  destruct (run_loop default_config always_buy (flat_bars 101) (seq 100 1) (init_state 10000))
    as [st|] eqn:E1; [|vm_compute in E1; discriminate].
  destruct (step default_config (mk_bar 101 104 104 104 104 1000) Scorer.HOLD st)
    as [st'|] eqn:E2.
  - exists st, st'. split; [reflexivity|]. split; [exact E2|].
    exact (backtest_equity_marks_to_market default_config always_buy (flat_bars 101) (seq 100 1)
             10000 st (mk_bar 101 104 104 104 104 1000) Scorer.HOLD st' E1 E2).
  - vm_compute in E1. injection E1 as <-. vm_compute in E2. discriminate E2.
Defined.

(** The simulation loop never looks ahead: bars after the last simulated
    index do not change its result. *)
Theorem backtest_loop_causal cfg gen bs more idx st :
  (forall i, In i idx -> (i < List.length bs)%nat) ->
  run_loop cfg gen (bs ++ more) idx st = run_loop cfg gen bs idx st.
Proof.
  revert st. induction idx as [|i idx IH]; intros st Hidx; [reflexivity|].
  cbn [run_loop].
  assert (Hi : (i < List.length bs)%nat) by (apply Hidx; left; reflexivity).
  rewrite firstn_app. replace (S i - List.length bs)%nat with 0%nat by lia.
  rewrite firstn_O, app_nil_r, app_nth1 by exact Hi.
  destruct (step _ _ _ st); [|reflexivity].
  apply IH. intros j Hj. apply Hidx. right. exact Hj.
Qed.

Lemma backtest_loop_causal_witness :
  (forall i, In i (seq 100 1) -> (i < List.length (flat_bars 101))%nat) /\
  run_loop default_config always_buy (flat_bars 101 ++ flat_bars 3) (seq 100 1) (init_state 10000)
  = run_loop default_config always_buy (flat_bars 101) (seq 100 1) (init_state 10000).
Proof.
  assert (H : forall i, In i (seq 100 1) -> (i < List.length (flat_bars 101))%nat).
  { intros i Hi. apply in_seq in Hi. unfold flat_bars. rewrite length_map, length_seq. lia. }
  split; [exact H|]. exact (backtest_loop_causal _ _ _ _ _ _ H).
Defined.

Module StatsFacts.
Import Backtest.

Lemma filter_disjoint_length {A} (f g : A -> bool) (l : list A) :
  (forall x, f x = true -> g x = false) ->
  (List.length (filter f l) + List.length (filter g l) <= List.length l)%nat.
Proof.
  intro H. induction l as [|x l IH]; [simpl; lia|]. cbn [filter].
  destruct (f x) eqn:Ef; [rewrite (H x Ef)|destruct (g x)]; cbn [List.length]; lia.
Qed.

Lemma Qsum_all_pos xs : xs <> [] -> Forall (fun y => 0 < y) xs -> 0 < Rsi.Qsum xs.
Proof.
  intros Hne H. induction H as [|y ys Hy Hys IH]; [congruence|].
  unfold Rsi.Qsum in *; cbn [fold_right].
  destruct ys as [|z zs]; [cbn [fold_right]; Lqa.lra|].
  specialize (IH ltac:(discriminate)). Lqa.lra.
Qed.

Lemma Qsum_all_neg xs : xs <> [] -> Forall (fun y => y < 0) xs -> Rsi.Qsum xs < 0.
Proof.
  intros Hne H. induction H as [|y ys Hy Hys IH]; [congruence|].
  unfold Rsi.Qsum in *; cbn [fold_right].
  destruct ys as [|z zs]; [cbn [fold_right]; Lqa.lra|].
  specialize (IH ltac:(discriminate)). Lqa.lra.
Qed.

Lemma inject_nat_pos n : (0 < n)%nat -> 0 < inject_Z (Z.of_nat n).
Proof. intro H. unfold Qlt; simpl. lia. Qed.

Lemma Qmean_pos xs : xs <> [] -> Forall (fun y => 0 < y) xs -> 0 < Qmean xs.
Proof.
  intros Hne H. unfold Qmean. apply Qlt_shift_div_l.
  - apply inject_nat_pos. destruct xs; [congruence|simpl; lia].
  - rewrite Qmult_0_l. exact (Qsum_all_pos _ Hne H).
Qed.

Lemma Qmean_neg xs : xs <> [] -> Forall (fun y => y < 0) xs -> Qmean xs < 0.
Proof.
  intros Hne H. unfold Qmean. apply Qlt_shift_div_r.
  - apply inject_nat_pos. destruct xs; [congruence|simpl; lia].
  - rewrite Qmult_0_l. exact (Qsum_all_neg _ Hne H).
Qed.

Lemma filter_nonempty {A} (f : A -> bool) l :
  (0 < List.length (filter f l))%nat -> filter f l <> [].
Proof. intros H E. rewrite E in H. simpl in H. lia. Qed.

Lemma map_nonempty {A B} (f : A -> B) l : l <> [] -> map f l <> [].
Proof. destruct l; simpl; congruence. Qed.

End StatsFacts.

Import StatsFacts ReportFixtures.

(** The report's counters and ratios are consistent: winning and losing
    trades are disjoint parts of all trades, the win rate is a percentage,
    the average win is positive and the average loss negative when there
    are any, and the profit factor is non-negative and 0 when no trade
    lost. *)
Theorem statistics_bounds ts eq ic fc rep :
  calculate_statistics ts eq ic fc = Returned (Some rep) ->
  total_trades rep = List.length ts /\
  (winning_trades rep + losing_trades rep <= total_trades rep)%nat /\
  0 <= win_rate rep <= 100 /\
  ((0 < winning_trades rep)%nat -> 0 < avg_win rep) /\
  ((0 < losing_trades rep)%nat -> avg_loss rep < 0) /\
  0 <= profit_factor rep /\
  (losing_trades rep = 0%nat -> profit_factor rep = 0).
Proof.
  unfold calculate_statistics. destruct ts as [|t0 ts0] eqn:Ets; [discriminate|].
  rewrite <- Ets. destruct eq; [discriminate|]. intro H; injection H as <-. cbn [total_trades winning_trades losing_trades
    win_rate avg_win avg_loss profit_factor].
  set (wins := filter (fun t => Qlt_bool 0 (pnl t)) ts).
  set (losses := filter (fun t => Qlt_bool (pnl t) 0) ts).
  assert (Hdis : (List.length wins + List.length losses <= List.length ts)%nat).
  { apply filter_disjoint_length. intros x Hx. apply Qlt_bool_iff in Hx.
    apply not_true_iff_false. rewrite Qlt_bool_iff. intro Hy. Lqa.lra. }
  assert (Htot : (0 < List.length ts)%nat) by (rewrite Ets; simpl; lia).
  split; [reflexivity|]. split; [exact Hdis|].
  split.
  { apply Nat.ltb_lt in Htot. rewrite Htot.
    assert (Ht := inject_nat_pos _ (proj1 (Nat.ltb_lt _ _) Htot)).
    assert (Hw : inject_Z (Z.of_nat (List.length wins)) <= inject_Z (Z.of_nat (List.length ts)))
      by (unfold Qle; simpl; lia).
    assert (Hw0 : 0 <= inject_Z (Z.of_nat (List.length wins))) by (unfold Qle; simpl; lia).
    split.
    - apply (Qle_trans _ (0 * 100)); [discriminate|].
      apply Qmult_le_compat_r; [|discriminate]. apply Qle_shift_div_l; [exact Ht|Lqa.lra].
    - apply (Qle_trans _ (1 * 100)); [|discriminate].
      apply Qmult_le_compat_r; [|discriminate]. apply Qle_shift_div_r; [exact Ht|Lqa.lra]. }
  assert (Hwin : (0 < List.length wins)%nat -> 0 < Qmean (map pnl wins)).
  { intro Hw. apply Qmean_pos; [apply map_nonempty, filter_nonempty, Hw|].
    apply Forall_forall. intros y Hy. apply in_map_iff in Hy. destruct Hy as (t & <- & Ht).
    apply filter_In in Ht. apply Qlt_bool_iff, (proj2 Ht). }
  assert (Hlos : (0 < List.length losses)%nat -> Qmean (map pnl losses) < 0).
  { intro Hw. apply Qmean_neg; [apply map_nonempty, filter_nonempty, Hw|].
    apply Forall_forall. intros y Hy. apply in_map_iff in Hy. destruct Hy as (t & <- & Ht).
    apply filter_In in Ht. apply Qlt_bool_iff, (proj2 Ht). }
  split.
  { intro Hw. destruct (Nat.ltb_spec 0 (List.length wins)); [exact (Hwin Hw)|lia]. }
  split.
  { intro Hw. destruct (Nat.ltb_spec 0 (List.length losses)); [exact (Hlos Hw)|lia]. }
  split.
  { BacktestFacts.case_ifs; unfold Qle; cbn [Qnum Qden]; lia. }
  intro H0. rewrite H0. reflexivity.
Qed.


Lemma statistics_bounds_witness :
  exists rep,
    calculate_statistics sample_trades sample_curve 10000 10080 = Returned (Some rep) /\
    total_trades rep = 2%nat /\
    (winning_trades rep + losing_trades rep <= total_trades rep)%nat /\
    0 <= win_rate rep <= 100 /\
    ((0 < winning_trades rep)%nat -> 0 < avg_win rep) /\
    ((0 < losing_trades rep)%nat -> avg_loss rep < 0) /\
    0 <= profit_factor rep /\
    (losing_trades rep = 0%nat -> profit_factor rep = 0).
Proof.
  destruct (calculate_statistics sample_trades sample_curve 10000 10080) as [[rep|]|] eqn:E;
    [| vm_compute in E; discriminate | vm_compute in E; discriminate].
  exists rep. split; [reflexivity|].
  exact (statistics_bounds sample_trades sample_curve 10000 10080 rep E).
Defined.

Module DrawdownFacts.
Import Rsi Drawdown DrawdownInv.


Lemma cummax_from_pairs m xs :
  Forall (fun x => 0 < x) xs -> Forall (fun p => 0 < fst p <= snd p) (combine xs (cummax_from m xs)).
Proof.
  revert m. induction xs as [|x xs IH]; intros m H; [constructor|].
  inversion H as [|? ? Hx Hxs]; subst. cbn [cummax_from combine].
  constructor; [|apply IH, Hxs]. cbn [fst snd].
  destruct (Qle_bool m x) eqn:E; split; try exact Hx; [apply Qle_refl|].
  apply Qlt_le_weak, Qnot_le_lt. intro C. apply Qle_bool_iff in C. congruence.
Qed.

Lemma cummax_pairs xs :
  Forall (fun x => 0 < x) xs -> Forall (fun p => 0 < fst p <= snd p) (combine xs (cummax xs)).
Proof.
  destruct xs as [|x xs]; intro H; [constructor|].
  inversion H as [|? ? Hx Hxs]; subst. cbn [cummax combine].
  constructor; [split; [exact Hx|apply Qle_refl]|]. apply cummax_from_pairs, Hxs.
Qed.

Lemma drawdown_cell_bounded e m :
  0 < e <= m -> dd_bounded (xf_mul100 (f_div (e - m) m)).
Proof.
  intros [He Hm]. assert (Hm0 : 0 < m) by Lqa.lra.
  unfold f_div. replace (Qeq_bool m 0) with false
    by (symmetry; apply not_true_iff_false; rewrite Qeq_bool_iff; intro E; rewrite E in Hm0;
        discriminate Hm0).
  cbn [xf_mul100]. eexists; split; [reflexivity|]. split.
  - assert (H1 : -1 < (e - m) / m).
    { apply Qlt_shift_div_l; [exact Hm0|]. Lqa.nra. }
    Lqa.lra.
  - assert (H1 : (e - m) / m <= 0) by (apply Qle_shift_div_r; [exact Hm0|]; Lqa.lra).
    Lqa.lra.
Qed.

Lemma xf_min2_bounded x y : dd_bounded x -> dd_bounded y -> dd_bounded (xf_min2 x y).
Proof.
  intros (p & -> & Hp) (q & -> & Hq). cbn [xf_min2].
  destruct (Qle_bool p q); eexists; split; eauto.
Qed.

Lemma fold_min_bounded xs acc :
  dd_bounded acc -> Forall dd_bounded xs -> dd_bounded (fold_left xf_min2 xs acc).
Proof.
  revert acc. induction xs as [|x xs IH]; intros acc Ha H; [exact Ha|].
  inversion H; subst. cbn [fold_left]. apply IH; [apply xf_min2_bounded|]; assumption.
Qed.

End DrawdownFacts.

Import Drawdown DrawdownInv DrawdownFacts ReportFixtures.

(** On a non-empty equity curve of positive values the maximum drawdown is
    a finite percentage in (-100, 0]: never positive, and never a total
    loss. *)
Theorem max_drawdown_bounds (eq : list (Z * Q)) :
  eq <> [] -> Forall (fun e => 0 < snd e) eq ->
  exists q, max_drawdown eq = Rsi.Fin q /\ -100 < q <= 0.
Proof.
  intros Hne Hpos. unfold max_drawdown.
  assert (Hs : Forall (fun x => 0 < x) (map snd eq)).
  { apply Forall_map. exact Hpos. }
  pose proof (cummax_pairs _ Hs) as Hp.
  set (cells := map (fun ep => xf_mul100 (Rsi.f_div (fst ep - snd ep) (snd ep)))
                    (combine (map snd eq) (cummax (map snd eq)))).
  assert (Hc : Forall dd_bounded cells).
  { apply Forall_map. refine (Forall_impl _ _ Hp). intros [e m] H. exact (drawdown_cell_bounded e m H). }
  destruct eq as [|e0 eq']; [congruence|].
  unfold series_min. destruct cells as [|c cs] eqn:Ec.
  - unfold cells in Ec. cbn [map cummax combine] in Ec. discriminate Ec.
  - inversion Hc as [|? ? Hc0 Hcs]; subst.
    cbn [fold_left]. replace (xf_min2 Rsi.NaN c) with c by reflexivity.
    exact (fold_min_bounded _ _ Hc0 Hcs).
Qed.


Lemma max_drawdown_bounds_witness :
  sample_curve <> [] /\ Forall (fun e => 0 < snd e) sample_curve /\
  exists q, max_drawdown sample_curve = Rsi.Fin q /\ -100 < q <= 0.
Proof.
  assert (H1 : sample_curve <> []) by discriminate.
  assert (H2 : Forall (fun e => 0 < snd e) sample_curve)
    by (repeat constructor).
  split; [exact H1|]. split; [exact H2|]. exact (max_drawdown_bounds _ H1 H2).
Defined.

Module StringFacts.
Import Alpaca ConfigSymbols.

Lemma lower_ascii_idem c : lower_ascii (lower_ascii c) = lower_ascii c.
Proof. destruct c as [[] [] [] [] [] [] [] []]; reflexivity. Qed.

Lemma lower_idem s : lower (lower s) = lower s.
Proof. induction s as [|c s IH]; cbn [lower]; [reflexivity|]. rewrite lower_ascii_idem, IH. reflexivity. Qed.

Lemma split_on_nonempty sep s : split_on sep s <> [].
Proof.
  destruct s as [|c s]; cbn [split_on]; [discriminate|].
  destruct (Ascii.eqb c sep); [discriminate|]. destruct (split_on sep s); discriminate.
Qed.

Lemma join_cons_char sep c r rs : join sep (String c r :: rs) = String c (join sep (r :: rs)).
Proof. destruct rs; reflexivity. Qed.

Lemma join_split sep s : join sep (split_on sep s) = s.
Proof.
  induction s as [|c s IH]; [reflexivity|]. cbn [split_on].
  destruct (Ascii.eqb c sep) eqn:E.
  - apply Ascii.eqb_eq in E. subst c.
    destruct (split_on sep s) as [|r rs] eqn:Es; [exfalso; exact (split_on_nonempty sep s Es)|].
    cbn [join]. rewrite <- IH. reflexivity.
  - destruct (split_on sep s) as [|r rs] eqn:Es; [exfalso; exact (split_on_nonempty sep s Es)|].
    rewrite join_cons_char, IH. reflexivity.
Qed.

Lemma split_on_pieces sep s :
  Forall (fun p => ~ In sep (list_ascii_of_string p)) (split_on sep s).
Proof.
  induction s as [|c s IH]; cbn [split_on].
  - constructor; [intros []|constructor].
  - destruct (Ascii.eqb c sep) eqn:E.
    + constructor; [intros []|exact IH].
    + destruct (split_on sep s) as [|r rs]; [constructor; [|constructor]|].
      * cbn. intros [H|[]]. subst. rewrite Ascii.eqb_refl in E. discriminate E.
      * inversion IH as [|? ? Hr Hrs]; subst. constructor; [|exact Hrs].
        cbn [list_ascii_of_string In]. intros [H|H]; [|exact (Hr H)].
        subst. rewrite Ascii.eqb_refl in E. discriminate E.
Qed.

End StringFacts.

Import StringFacts.

(** [place_order] reads the side case-insensitively: any capitalisation of
    the side string gives the same request as its lower-case form. *)
Theorem place_order_side_case_insensitive symbol qty side order_type limit_price :
  Alpaca.place_order symbol qty side order_type limit_price =
  Alpaca.place_order symbol qty (Alpaca.lower side) order_type limit_price.
Proof. unfold Alpaca.place_order. rewrite lower_idem. reflexivity. Qed.

(** [Config.SYMBOLS] splits the configured string at every comma without
    losing anything: the list is never empty, no piece contains a comma, and
    joining the pieces with commas gives the string back. *)
Theorem symbols_split_roundtrip env :
  let raw := match env with Some s => s | None => ConfigSymbols.default_symbols end in
  ConfigSymbols.SYMBOLS env <> [] /\
  Forall (fun p => ~ In ","%char (list_ascii_of_string p)) (ConfigSymbols.SYMBOLS env) /\
  ConfigSymbols.join "," (ConfigSymbols.SYMBOLS env) = raw.
Proof.
  cbv zeta. unfold ConfigSymbols.SYMBOLS.
  split; [apply split_on_nonempty|]. split; [apply split_on_pieces|]. apply join_split.
Qed.

Module BotFacts.
Import Backtest Alpaca Rsi Bot.

Lemma dict_get_set_same k v d : dict_get k (dict_set k v d) = Some v.
Proof.
  induction d as [|[k' v'] d IH]; cbn [dict_set dict_get]; [rewrite String.eqb_refl; reflexivity|].
  destruct (String.eqb k k') eqn:E; cbn [dict_get]; [rewrite String.eqb_refl; reflexivity|].
  rewrite E. exact IH.
Qed.

Lemma dict_get_set_other k k' v d : k <> k' -> dict_get k (dict_set k' v d) = dict_get k d.
Proof.
  intro Hne. induction d as [|[k0 v0] d IH]; cbn [dict_set dict_get].
  - apply String.eqb_neq in Hne. rewrite Hne. reflexivity.
  - destruct (String.eqb k' k0) eqn:E; cbn [dict_get].
    + apply String.eqb_eq in E. subst k0.
      apply String.eqb_neq in Hne. rewrite Hne. reflexivity.
    + destruct (String.eqb k k0); [reflexivity|exact IH].
Qed.

Lemma dict_get_del k k' d :
  dict_get k (dict_del k' d) = if String.eqb k k' then None else dict_get k d.
Proof.
  unfold dict_del. induction d as [|[k0 v0] d IH]; cbn [filter dict_get fst].
  - destruct (String.eqb k k'); reflexivity.
  - destruct (String.eqb k' k0) eqn:E; cbn [negb dict_get].
    + apply String.eqb_eq in E. subst k0. rewrite IH.
      destruct (String.eqb k k'); reflexivity.
    + rewrite IH. destruct (String.eqb k k') eqn:E1; [|reflexivity].
      apply String.eqb_eq in E1. subst k. rewrite E. reflexivity.
Qed.

Lemma py_int_neg q : q < 0 -> (py_int q <= 0)%Z.
Proof.
  destruct q as [n d]. unfold py_int, Qlt; cbn [Qnum Qden]. intro H.
  replace n with (- (- n))%Z by lia. rewrite Z.quot_opp_l by lia.
  assert (0 <= Z.quot (- n) (Z.pos d))%Z by (apply Z.quot_pos; lia). lia.
Qed.

Lemma execute_buy_cases cfg br symbol price ap :
  execute_buy cfg br symbol price ap = ([], ap) \/
  exists bp n,
    buying_power br = Some bp /\ ~ price == 0 /\
    n = py_int (bp * POSITION_SIZE_PCT cfg / price) /\ (1 <= n)%Z /\
    execute_buy cfg br symbol price ap =
      ([MarketOrderRequest symbol (inject_Z n) OrderSide_BUY],
       if accepts br then dict_set symbol (price, n) ap else ap).
Proof.
  unfold execute_buy. destruct (buying_power br) as [bp|]; [|left; reflexivity].
  destruct (Qeq_bool price 0) eqn:Hp; [left; reflexivity|].
  cbv zeta. destruct (Z.ltb _ 1) eqn:Hn; [left; reflexivity|].
  right. exists bp, (py_int (bp * POSITION_SIZE_PCT cfg / price)).
  split; [reflexivity|]. split.
  { intro E. apply Qeq_bool_iff in E. congruence. }
  split; [reflexivity|]. split; [apply Z.ltb_ge, Hn|]. reflexivity.
Qed.

Lemma execute_sell_eq br symbol price pos ap :
  execute_sell br symbol price pos ap =
    ([MarketOrderRequest symbol (inject_Z (py_int (bpos_qty pos))) OrderSide_SELL],
     if accepts br then dict_del symbol ap else ap).
Proof. reflexivity. Qed.

Lemma check_exit_cases cfg br symbol price pos ap :
  check_exit_conditions cfg br symbol price pos ap = ([], ap) \/
  check_exit_conditions cfg br symbol price pos ap = execute_sell br symbol price pos ap.
Proof.
  unfold check_exit_conditions. cbv zeta.
  destruct (xf_le_q _ _); [right; reflexivity|]. destruct (xf_ge_q _ _); [right|left]; reflexivity.
Qed.

Lemma process_symbol_cases cfg gen br symbol bars ap :
  process_symbol cfg gen br symbol bars ap = ([], ap) \/
  (exists bs, bars = Some bs /\ bs <> [] /\ gen bs = Scorer.BUY /\ open_position br = None /\
     process_symbol cfg gen br symbol bars ap =
       execute_buy cfg br symbol (close (last bs default_bar)) ap) \/
  (exists bs pos, bars = Some bs /\ bs <> [] /\ open_position br = Some pos /\
     process_symbol cfg gen br symbol bars ap =
       execute_sell br symbol (close (last bs default_bar)) pos ap).
Proof.
  unfold process_symbol. destruct bars as [[|b bs]|]; [left; reflexivity| |left; reflexivity].
  cbv zeta. destruct (gen (b :: bs)) eqn:Eg, (open_position br) as [pos|] eqn:Ep;
    try (left; reflexivity).
  all: try (right; left; exists (b :: bs); split; [reflexivity|]; split; [discriminate|];
            split; [exact Eg|]; split; [reflexivity|]; reflexivity).
  all: try (right; right; exists (b :: bs), pos; split; [reflexivity|]; split; [discriminate|];
            split; [reflexivity|]; reflexivity).
  all: destruct (check_exit_cases cfg br symbol (close (last (b :: bs) default_bar)) pos ap) as [E|E];
    rewrite E; [left; reflexivity|].
  all: right; right; exists (b :: bs), pos; split; [reflexivity|]; split; [discriminate|];
       split; [reflexivity|]; reflexivity.
Qed.

End BotFacts.

Import Backtest Rsi Bot BotFacts BacktestAux BacktestFacts BacktestFacts2.

(** One live step sends at most one order, always a market order for the
    processed symbol; a buy only when the broker holds no position and the
    strategy said BUY on a non-empty bar series, a sell only when the
    broker holds a position. *)
Theorem live_order_discipline cfg gen br symbol bars ap :
  let reqs := fst (process_symbol cfg gen br symbol bars ap) in
  (List.length reqs <= 1)%nat /\
  Forall (fun r => exists q, r = Alpaca.MarketOrderRequest symbol q (Alpaca.request_side r)) reqs /\
  (forall r, In r reqs -> Alpaca.request_side r = Alpaca.OrderSide_BUY ->
     open_position br = None /\
     exists bs, bars = Some bs /\ bs <> [] /\ gen bs = Scorer.BUY) /\
  (forall r, In r reqs -> Alpaca.request_side r = Alpaca.OrderSide_SELL ->
     open_position br <> None).
Proof.
  cbv zeta.
  destruct (process_symbol_cases cfg gen br symbol bars ap)
    as [E|[(bs & Hb & Hne & Hg & Hp & E)|(bs & pos & Hb & Hne & Hp & E)]]; rewrite E.
  - cbn [fst List.length]. split; [lia|]. split; [constructor|]. split; intros r [].
  - destruct (execute_buy_cases cfg br symbol (close (last bs default_bar)) ap)
      as [E'|(bp & n & _ & _ & _ & _ & E')]; rewrite E'; cbn [fst List.length].
    + split; [lia|]. split; [constructor|]. split; intros r [].
    + split; [lia|]. split; [repeat constructor; eexists; reflexivity|].
      split; intros r [<-|[]]; cbn [Alpaca.request_side]; intro Hs; [|discriminate Hs].
      split; [exact Hp|]. exists bs. auto.
  - rewrite execute_sell_eq. cbn [fst List.length].
    split; [lia|]. split; [repeat constructor; eexists; reflexivity|].
    split; intros r [<-|[]]; cbn [Alpaca.request_side]; intro Hs; [discriminate Hs|].
    rewrite Hp. discriminate.
Qed.

(** [active_positions] changes only for the processed symbol and only when
    the broker accepted the order: an accepted buy records the entry price
    (the last close) and the share count of the order, an accepted sell
    removes the entry. *)
Theorem live_positions_bookkeeping cfg gen br symbol bars ap :
  let eff := process_symbol cfg gen br symbol bars ap in
  (forall k, k <> symbol -> dict_get k (snd eff) = dict_get k ap) /\
  ((fst eff = [] \/ accepts br = false) -> snd eff = ap) /\
  (accepts br = true -> forall r, In r (fst eff) ->
     Alpaca.request_side r = Alpaca.OrderSide_SELL -> dict_get symbol (snd eff) = None) /\
  (accepts br = true -> forall r, In r (fst eff) ->
     Alpaca.request_side r = Alpaca.OrderSide_BUY ->
     exists bs n, bars = Some bs /\ r = Alpaca.MarketOrderRequest symbol (inject_Z n) Alpaca.OrderSide_BUY /\
                  dict_get symbol (snd eff) = Some (close (last bs default_bar), n)).
Proof.
  cbv zeta.
  destruct (process_symbol_cases cfg gen br symbol bars ap)
    as [E|[(bs & Hb & Hne & Hg & Hp & E)|(bs & pos & Hb & Hne & Hp & E)]]; rewrite E.
  - cbn [fst snd]. split; [reflexivity|]. split; [reflexivity|]. split; intros _ r [].
  - destruct (execute_buy_cases cfg br symbol (close (last bs default_bar)) ap)
      as [E'|(bp & n & _ & _ & _ & _ & E')]; rewrite E'; cbn [fst snd].
    + split; [reflexivity|]. split; [reflexivity|]. split; intros _ r [].
    + split.
      { intros k Hk. destruct (accepts br); [exact (dict_get_set_other _ _ _ _ Hk)|reflexivity]. }
      split.
      { intros [H|H]; [discriminate H|rewrite H; reflexivity]. }
      split; intros Ha r [<-|[]]; cbn [Alpaca.request_side]; intro Hs; [discriminate Hs|].
      exists bs, n. split; [exact Hb|]. split; [reflexivity|].
      rewrite Ha. apply dict_get_set_same.
  - rewrite execute_sell_eq. cbn [fst snd].
    split.
    { intros k Hk. destruct (accepts br); [|reflexivity].
      rewrite dict_get_del. apply String.eqb_neq in Hk. rewrite Hk. reflexivity. }
    split.
    { intros [H|H]; [discriminate H|rewrite H; reflexivity]. }
    split; intros Ha r [<-|[]]; cbn [Alpaca.request_side]; intro Hs; [|discriminate Hs].
    rewrite Ha, dict_get_del, String.eqb_refl. reflexivity.
Qed.

(** At a positive price, a live buy order is for at least one share and
    costs at most [buying_power * POSITION_SIZE_PCT]. *)
Theorem live_buy_sizing cfg br symbol price ap r :
  0 < price ->
  In r (fst (execute_buy cfg br symbol price ap)) ->
  exists bp n,
    buying_power br = Some bp /\
    r = Alpaca.MarketOrderRequest symbol (inject_Z n) Alpaca.OrderSide_BUY /\
    (1 <= n)%Z /\ inject_Z n * price <= bp * POSITION_SIZE_PCT cfg.
Proof.
  intros Hp Hin.
  destruct (execute_buy_cases cfg br symbol price ap)
    as [E|(bp & n & Hbp & Hne & Hn & H1 & E)]; rewrite E in Hin; cbn [fst] in Hin;
    [destruct Hin|].
  destruct Hin as [<-|[]].
  exists bp, n. split; [exact Hbp|]. split; [reflexivity|]. split; [exact H1|].
  set (q := bp * POSITION_SIZE_PCT cfg / price) in Hn.
  assert (Hq : 0 <= q).
  { apply Qnot_lt_le. intro Hq. pose proof (py_int_neg q Hq). lia. }
  destruct (py_int_floor q Hq) as [Hfl _]. rewrite <- Hn in Hfl.
  apply (Qmult_le_r _ _ price Hp) in Hfl. unfold q in Hfl.
  setoid_replace (bp * POSITION_SIZE_PCT cfg / price * price)
    with (bp * POSITION_SIZE_PCT cfg) in Hfl
    by (field; intro E0; rewrite E0 in Hp; discriminate Hp).
  exact Hfl.
Qed.

Lemma live_buy_sizing_witness :
  exists bp n,
    buying_power (mk_broker (Some 10000) None true) = Some bp /\
    Alpaca.MarketOrderRequest "AAPL" 10 Alpaca.OrderSide_BUY =
      Alpaca.MarketOrderRequest "AAPL" (inject_Z n) Alpaca.OrderSide_BUY /\
    (1 <= n)%Z /\ inject_Z n * 100 <= bp * POSITION_SIZE_PCT default_config.
Proof.
  apply (live_buy_sizing default_config (mk_broker (Some 10000) None true) "AAPL" 100 []
           (Alpaca.MarketOrderRequest "AAPL" 10 Alpaca.OrderSide_BUY)).
  - reflexivity.
  - left. reflexivity.
Defined.

(** With a non-zero average entry price, the live exit check sells exactly
    when the backtest closes the position on a bar with the same close and
    a signal other than SELL: the same stop-loss and take-profit rule on
    the same percentage. *)
Theorem live_exit_matches_backtest cfg b sig st st' p br symbol pos ap :
  sig <> Scorer.SELL -> position_of st = Some p ->
  entry_price p = avg_entry_price pos -> ~ entry_price p == 0 ->
  step cfg b sig st = Some st' ->
  (position_of st' = None <-> fst (check_exit_conditions cfg br symbol (close b) pos ap) <> []).
Proof.
  intros Hsig Hpos He Hne Hs.
  destruct (step_inv _ _ _ _ _ Hs) as (st1 & Hl & ->).
  unfold snapshot; cbn [position_of].
  unfold ledger_step in Hl. rewrite Hpos in Hl.
  assert (Hsig' : Scorer.signal_eqb sig Scorer.SELL = false)
    by (destruct sig; first [reflexivity | exfalso; apply Hsig; reflexivity]).
  assert (Hlive : live_pnl_pct (close b) (avg_entry_price pos) = Rsi.Fin (pnl_pct_of p (close b))).
  { unfold live_pnl_pct, f_div, pnl_pct_of. rewrite <- He.
    replace (Qeq_bool (entry_price p) 0) with false
      by (symmetry; apply not_true_iff_false; rewrite Qeq_bool_iff; exact Hne).
    reflexivity. }
  unfold check_exit_conditions. cbv zeta. rewrite Hlive. cbn [xf_le_q xf_ge_q].
  assert (Hsell : fst (execute_sell br symbol (close b) pos ap) <> [])
    by (rewrite execute_sell_eq; discriminate).
  destruct sig; try congruence; cbv zeta in Hl;
  destruct (Qle_bool (pnl_pct_of p (close b)) (- STOP_LOSS_PCT cfg)) eqn:E1;
  try destruct (Qle_bool (TAKE_PROFIT_PCT cfg) (pnl_pct_of p (close b))) eqn:E2;
  injection Hl as <-; cbn [position_of]; split; intro H; try exact Hsell; try reflexivity;
  try (rewrite Hpos in H; discriminate H); try (exfalso; apply H; reflexivity).
Qed.

Lemma live_exit_matches_backtest_witness :
  Scorer.HOLD <> Scorer.SELL /\
  exists st',
    step default_config (mk_bar 1 97 97 97 97 1000) Scorer.HOLD BacktestAux.long_at_100 = Some st' /\
    (position_of st' = None <->
     fst (check_exit_conditions default_config (mk_broker (Some 0) (Some (mk_bpos 10 100)) true)
            "AAPL" 97 (mk_bpos 10 100) [("AAPL"%string, (100, 10%Z))]) <> []).
Proof.
  assert (H : Scorer.HOLD <> Scorer.SELL) by discriminate.
  split; [exact H|].
  destruct (step default_config (mk_bar 1 97 97 97 97 1000) Scorer.HOLD BacktestAux.long_at_100)
    as [st'|] eqn:E; [|vm_compute in E; discriminate].
  exists st'. split; [reflexivity|].
  exact (live_exit_matches_backtest default_config (mk_bar 1 97 97 97 97 1000) Scorer.HOLD
           BacktestAux.long_at_100 st' (mk_position 100 10 0)
           (mk_broker (Some 0) (Some (mk_bpos 10 100)) true) "AAPL" (mk_bpos 10 100)
           [("AAPL"%string, (100, 10%Z))] H eq_refl eq_refl ltac:(discriminate) E).
Defined.

(** With a zero average entry price the live P&L percentage is a numpy
    infinity or NaN instead of an error: the position is sold at any
    non-zero price and kept at price 0. *)
Theorem live_exit_zero_entry cfg br symbol price pos ap :
  avg_entry_price pos == 0 ->
  (fst (check_exit_conditions cfg br symbol price pos ap) <> [] <-> ~ price == 0).
Proof.
  intros He.
  assert (Hsell : fst (execute_sell br symbol price pos ap) <> [])
    by (rewrite execute_sell_eq; discriminate).
  unfold check_exit_conditions, live_pnl_pct, f_div. cbv zeta.
  replace (Qeq_bool (avg_entry_price pos) 0) with true by (symmetry; apply Qeq_bool_iff, He).
  destruct (Qeq_bool (price - avg_entry_price pos) 0) eqn:E0.
  - apply Qeq_bool_iff in E0. cbn [xf_le_q xf_ge_q fst].
    split; [intro H; exfalso; apply H; reflexivity|intro H; exfalso; apply H; Lqa.lra].
  - assert (Hp : ~ price == 0).
    { intro Hp. apply not_true_iff_false in E0. apply E0, Qeq_bool_iff. Lqa.lra. }
    destruct (Qlt_bool 0 (price - avg_entry_price pos)); cbn [xf_le_q xf_ge_q];
    split; intros _; first [exact Hp | exact Hsell].
Qed.

Lemma live_exit_zero_entry_witness :
  fst (check_exit_conditions default_config (mk_broker (Some 0) (Some (mk_bpos 10 0)) true)
         "AAPL" 50 (mk_bpos 10 0) []) <> [] <-> ~ (50 : Q) == 0.
Proof.
  exact (live_exit_zero_entry default_config (mk_broker (Some 0) (Some (mk_bpos 10 0)) true)
           "AAPL" 50 (mk_bpos 10 0) [] ltac:(reflexivity)).
Defined.

